(** * pys3server: SigV4 authentication, upload tokens and the protocol router

    A shallow embedding of [pys3server/signature_v4.py] and
    [pys3server/server.py], together with the in-memory backend streams of
    [test/conftest.py].  Python [bytes] and [str] values are Rocq strings
    (a [str] is represented by its UTF-8 encoding), exceptions are an
    explicit error type, and the storage backend is a record of state
    transformers whose invocations are logged in a call trace. *)

From Stdlib Require Import ZArith List Ascii String Bool Lia.
Import ListNotations.

Local Open Scope list_scope.
Local Open Scope string_scope.

(** ** Byte strings *)

(** Python [bytes]; a Python [str] is carried as its UTF-8 encoding. *)
Definition bytes := string.
Definition str := string.

Module Bytes.

Fixpoint to_list (s : bytes) : list Z :=
  match s with
  | EmptyString => []
  | String c r => Z.of_N (N_of_ascii c) :: to_list r
  end.

Fixpoint of_list (l : list Z) : bytes :=
  match l with
  | [] => EmptyString
  | b :: r => String (ascii_of_N (Z.to_N b)) (of_list r)
  end.

Fixpoint take (n : nat) (s : bytes) : bytes :=
  match n, s with
  | S k, String c r => String c (take k r)
  | _, _ => EmptyString
  end.

Fixpoint drop (n : nat) (s : bytes) : bytes :=
  match n, s with
  | S k, String _ r => drop k r
  | _, _ => s
  end.

Fixpoint repeat (c : ascii) (n : nat) : bytes :=
  match n with
  | O => EmptyString
  | S k => String c (repeat c k)
  end.

Fixpoint map (f : ascii -> ascii) (s : bytes) : bytes :=
  match s with
  | EmptyString => EmptyString
  | String c r => String (f c) (map f r)
  end.

(** [count] bytes of [s] from offset [start], as far as [s] reaches. *)
Definition slice (s : bytes) (start count : Z) : bytes :=
  take (Z.to_nat count) (drop (Z.to_nat start) s).

(** [sep.join(parts)] *)
Fixpoint join (sep : bytes) (parts : list bytes) : bytes :=
  match parts with
  | [] => EmptyString
  | [p] => p
  | p :: rest => p ++ sep ++ join sep rest
  end.

(** [s.split(sep)] for a one-byte separator: always at least one piece. *)
Fixpoint split (sep : ascii) (s : bytes) : list bytes :=
  match s with
  | EmptyString => [EmptyString]
  | String c r =>
      if Ascii.eqb c sep then EmptyString :: split sep r
      else match split sep r with
           | [] => [String c EmptyString]
           | p :: ps => String c p :: ps
           end
  end.

(** [s.split(sep, 1)]: cut at the first separator only. *)
Fixpoint split1 (sep : ascii) (s : bytes) : list bytes :=
  match s with
  | EmptyString => [EmptyString]
  | String c r =>
      if Ascii.eqb c sep then [EmptyString; r]
      else match split1 sep r with
           | p :: ps => String c p :: ps
           | [] => [String c EmptyString]
           end
  end.

(** [s.replace(c, b"")] for a one-byte pattern. *)
Fixpoint remove (c : ascii) (s : bytes) : bytes :=
  match s with
  | EmptyString => EmptyString
  | String d r => if Ascii.eqb d c then remove c r else String d (remove c r)
  end.

Definition lower_ascii (c : ascii) : ascii :=
  let n := N_of_ascii c in
  if (65 <=? n)%N && (n <=? 90)%N then ascii_of_N (n + 32) else c.

(** [s.lower()] on bytes: ASCII letters only. *)
Definition lower (s : bytes) : bytes := map lower_ascii s.

Definition hex_digit (n : Z) : ascii :=
  ascii_of_N (Z.to_N (if n <? 10 then 48 + n else 87 + n)%Z).

(** [s.hex()] / [hexdigest()]: two lower-case digits per byte. *)
Fixpoint hex (s : bytes) : bytes :=
  match s with
  | EmptyString => EmptyString
  | String c r =>
      let n := Z.of_N (N_of_ascii c) in
      String (hex_digit (n / 16)) (String (hex_digit (n mod 16)) (hex r))
  end.

(** [c in s] for a single byte. *)
Fixpoint has (c : ascii) (s : bytes) : bool :=
  match s with
  | EmptyString => false
  | String d r => Ascii.eqb d c || has c r
  end.

End Bytes.

(** ** SHA-256 (FIPS 180-4), the [hashlib.sha256] of the standard library *)

Module SHA256.
Local Open Scope Z_scope.

Definition w32 (x : Z) : Z := Z.land x 4294967295.
Definition add32 (x y : Z) : Z := w32 (x + y).
Definition rotr (n x : Z) : Z := Z.lor (Z.shiftr x n) (w32 (Z.shiftl x (32 - n))).
Definition not32 (x : Z) : Z := Z.lxor x 4294967295.

Definition Ch (x y z : Z) := Z.lxor (Z.land x y) (Z.land (not32 x) z).
Definition Maj (x y z : Z) :=
  Z.lxor (Z.lxor (Z.land x y) (Z.land x z)) (Z.land y z).
Definition Sigma0 (x : Z) := Z.lxor (Z.lxor (rotr 2 x) (rotr 13 x)) (rotr 22 x).
Definition Sigma1 (x : Z) := Z.lxor (Z.lxor (rotr 6 x) (rotr 11 x)) (rotr 25 x).
Definition sigma0 (x : Z) := Z.lxor (Z.lxor (rotr 7 x) (rotr 18 x)) (Z.shiftr x 3).
Definition sigma1 (x : Z) := Z.lxor (Z.lxor (rotr 17 x) (rotr 19 x)) (Z.shiftr x 10).

Definition is_prime (n : nat) : bool :=
  forallb (fun d => negb (Nat.eqb (Nat.modulo n d) 0)) (seq 2 (n - 2)).

(** The first 64 primes. *)
Definition primes : list Z :=
  List.map Z.of_nat (filter is_prime (seq 2 310)).

(** The integer cube root, found bit by bit from bit [n - 1] down. *)
Fixpoint cbrt_bits (n : nat) (x r : Z) : Z :=
  match n with
  | O => r
  | S k =>
      let c := r + 2 ^ Z.of_nat k in
      if c * c * c <=? x then cbrt_bits k x c else cbrt_bits k x r
  end.

(** The first 32 bits of the fractional parts of the cube roots of the
    first 64 primes. *)
Definition K : list Z :=
  Eval vm_compute in List.map (fun p => w32 (cbrt_bits 36 (p * 2 ^ 96) 0)) primes.

(** The first 32 bits of the fractional parts of the square roots of the
    first 8 primes. *)
Definition H0 : list Z :=
  Eval vm_compute in List.map (fun p => w32 (Z.sqrt (p * 2 ^ 64))) (firstn 8 primes).

(** Big-endian bytes of a [n]-byte integer. *)
Fixpoint be_bytes (n : nat) (x : Z) : list Z :=
  match n with
  | O => []
  | S k => (x / 256 ^ Z.of_nat k) mod 256 :: be_bytes k x
  end.

Fixpoint be_words (l : list Z) : list Z :=
  match l with
  | a :: b :: c :: d :: r =>
      (((a * 256 + b) * 256 + c) * 256 + d) :: be_words r
  | _ => []
  end.

(** Message padding: a 1 bit, zeros up to 56 mod 64, then the bit length. *)
Definition pad (m : list Z) : list Z :=
  let len := Z.of_nat (List.length m) in
  let zeros := Z.to_nat ((55 - len) mod 64) in
  (m ++ 128 :: List.repeat 0 zeros ++ be_bytes 8 (8 * len))%list.

(** The message schedule, newest word first. *)
Fixpoint extend (n : nat) (rev_w : list Z) : list Z :=
  match n with
  | O => rev_w
  | S k =>
      let w := add32 (add32 (sigma1 (nth 1 rev_w 0)) (nth 6 rev_w 0))
                     (add32 (sigma0 (nth 14 rev_w 0)) (nth 15 rev_w 0)) in
      extend k (w :: rev_w)
  end.

Definition schedule (block : list Z) : list Z :=
  rev (extend 48 (rev (be_words block))).

Definition round (s : list Z) (kw : Z * Z) : list Z :=
  match s with
  | [a; b; c; d; e; f; g; h] =>
      let t1 := add32 (add32 (add32 h (Sigma1 e)) (add32 (Ch e f g) (fst kw))) (snd kw) in
      let t2 := add32 (Sigma0 a) (Maj a b c) in
      [add32 t1 t2; a; b; c; add32 d t1; e; f; g]
  | _ => s
  end.

Definition compress (h : list Z) (block : list Z) : list Z :=
  let s := fold_left round (combine K (schedule block)) h in
  List.map (fun p => add32 (fst p) (snd p)) (combine h s).

Fixpoint blocks (n : nat) (m : list Z) (h : list Z) : list Z :=
  match n with
  | O => h
  | S k => blocks k (skipn 64 m) (compress h (firstn 64 m))
  end.

Definition digest_list (m : list Z) : list Z :=
  let p := pad m in
  flat_map (be_bytes 4) (blocks (List.length p / 64) p H0).

(** [sha256(m).digest()] *)
Definition digest (m : bytes) : bytes :=
  Bytes.of_list (digest_list (Bytes.to_list m)).

(** [sha256(m).hexdigest()] *)
Definition hexdigest (m : bytes) : bytes := Bytes.hex (digest m).

End SHA256.

(** ** HMAC (RFC 2104), the [hmac.new(key, msg, sha256).digest()] of the
    standard library *)

Module HMAC.

Definition xor_with (p : Z) (s : bytes) : bytes :=
  Bytes.of_list (List.map (fun b => Z.lxor b p) (Bytes.to_list s)).

(** The key is hashed when longer than a block and zero-padded to a block. *)
Definition block_key (H : bytes -> bytes) (B : nat) (key : bytes) : bytes :=
  let k := if Nat.ltb B (String.length key) then H key else key in
  k ++ Bytes.repeat zero (B - String.length k).

Definition hmac (H : bytes -> bytes) (B : nat) (key msg : bytes) : bytes :=
  let k := block_key H B key in
  H (xor_with 92 k ++ H (xor_with 54 k ++ msg)).

Definition hmac_sha256 : bytes -> bytes -> bytes := hmac SHA256.digest 64.

End HMAC.

(** ** MD5 (RFC 1321), the digest behind the ETag *)

Module MD5.
Local Open Scope Z_scope.

Definition w32 (x : Z) : Z := Z.land x 4294967295.
Definition add32 (x y : Z) : Z := w32 (x + y).
Definition rotl (n x : Z) : Z := Z.lor (w32 (Z.shiftl x n)) (Z.shiftr x (32 - n)).
Definition not32 (x : Z) : Z := Z.lxor x 4294967295.

Definition T : list Z :=
  [ 0xd76aa478; 0xe8c7b756; 0x242070db; 0xc1bdceee; 0xf57c0faf; 0x4787c62a;
    0xa8304613; 0xfd469501; 0x698098d8; 0x8b44f7af; 0xffff5bb1; 0x895cd7be;
    0x6b901122; 0xfd987193; 0xa679438e; 0x49b40821; 0xf61e2562; 0xc040b340;
    0x265e5a51; 0xe9b6c7aa; 0xd62f105d; 0x02441453; 0xd8a1e681; 0xe7d3fbc8;
    0x21e1cde6; 0xc33707d6; 0xf4d50d87; 0x455a14ed; 0xa9e3e905; 0xfcefa3f8;
    0x676f02d9; 0x8d2a4c8a; 0xfffa3942; 0x8771f681; 0x6d9d6122; 0xfde5380c;
    0xa4beea44; 0x4bdecfa9; 0xf6bb4b60; 0xbebfbc70; 0x289b7ec6; 0xeaa127fa;
    0xd4ef3085; 0x04881d05; 0xd9d4d039; 0xe6db99e5; 0x1fa27cf8; 0xc4ac5665;
    0xf4292244; 0x432aff97; 0xab9423a7; 0xfc93a039; 0x655b59c3; 0x8f0ccc92;
    0xffeff47d; 0x85845dd1; 0x6fa87e4f; 0xfe2ce6e0; 0xa3014314; 0x4e0811a1;
    0xf7537e82; 0xbd3af235; 0x2ad7d2bb; 0xeb86d391 ].

Definition shifts : list Z :=
  [ 7; 12; 17; 22; 7; 12; 17; 22; 7; 12; 17; 22; 7; 12; 17; 22;
    5; 9; 14; 20; 5; 9; 14; 20; 5; 9; 14; 20; 5; 9; 14; 20;
    4; 11; 16; 23; 4; 11; 16; 23; 4; 11; 16; 23; 4; 11; 16; 23;
    6; 10; 15; 21; 6; 10; 15; 21; 6; 10; 15; 21; 6; 10; 15; 21 ].

Definition A0 : list Z := [ 0x67452301; 0xefcdab89; 0x98badcfe; 0x10325476 ].

(** Little-endian bytes of a [n]-byte integer. *)
Fixpoint le_bytes (n : nat) (x : Z) : list Z :=
  match n with
  | O => []
  | S k => x mod 256 :: le_bytes k (x / 256)
  end.

Fixpoint le_words (l : list Z) : list Z :=
  match l with
  | a :: b :: c :: d :: r =>
      (a + 256 * (b + 256 * (c + 256 * d))) :: le_words r
  | _ => []
  end.

Definition pad (m : list Z) : list Z :=
  let len := Z.of_nat (List.length m) in
  let zeros := Z.to_nat ((55 - len) mod 64) in
  (m ++ 128 :: List.repeat 0 zeros ++ le_bytes 8 (8 * len))%list.

Definition step (M : list Z) (s : list Z) (i : Z) : list Z :=
  match s with
  | [a; b; c; d] =>
      let f :=
        if i <? 16 then Z.lor (Z.land b c) (Z.land (not32 b) d)
        else if i <? 32 then Z.lor (Z.land d b) (Z.land (not32 d) c)
        else if i <? 48 then Z.lxor (Z.lxor b c) d
        else Z.lxor c (Z.lor b (not32 d)) in
      let g :=
        if i <? 16 then i
        else if i <? 32 then (5 * i + 1) mod 16
        else if i <? 48 then (3 * i + 5) mod 16
        else (7 * i) mod 16 in
      let x := add32 (add32 f a)
                     (add32 (nth (Z.to_nat i) T 0) (nth (Z.to_nat g) M 0)) in
      [d; add32 b (rotl (nth (Z.to_nat i) shifts 0) x); b; c]
  | _ => s
  end.

Definition compress (h : list Z) (block : list Z) : list Z :=
  let s := fold_left (step (le_words block)) (List.map Z.of_nat (seq 0 64)) h in
  List.map (fun p => add32 (fst p) (snd p)) (combine h s).

Fixpoint blocks (n : nat) (m : list Z) (h : list Z) : list Z :=
  match n with
  | O => h
  | S k => blocks k (skipn 64 m) (compress h (firstn 64 m))
  end.

Definition digest_list (m : list Z) : list Z :=
  let p := pad m in
  flat_map (le_bytes 4) (blocks (List.length p / 64) p A0).

(** [md5(m).digest()] *)
Definition digest (m : bytes) : bytes :=
  Bytes.of_list (digest_list (Bytes.to_list m)).

(** [md5(m).hexdigest()] *)
Definition hexdigest (m : bytes) : bytes := Bytes.hex (digest m).

End MD5.

(** ** Exceptions and results *)

(** The Python exception classes the modelled code can raise.
    [UnicodeDecodeError] is a subclass of [ValueError]; [AccessDenied] and
    [InvalidAccessKeyId] are the two errors the backend's [access_key]
    documents; [BackendError] stands for any other failure of the backend. *)
Inductive exception :=
| ValueError
| UnicodeDecodeError
| TypeError
| AttributeError
| KeyError
| AssertionError
| AccessDenied
| InvalidAccessKeyId
| BackendError (code : nat).

Inductive result (A : Type) :=
| Ok (a : A)
| Raise (e : exception).
Arguments Ok {A} a.
Arguments Raise {A} e.

(** [except ValueError] also catches [UnicodeDecodeError]. *)
Definition is_ValueError (e : exception) : bool :=
  match e with
  | ValueError | UnicodeDecodeError => true
  | _ => false
  end.

Definition rbind {A B} (r : result A) (k : A -> result B) : result B :=
  match r with
  | Ok a => k a
  | Raise e => Raise e
  end.

Declare Scope result_scope.
Delimit Scope result_scope with result.
Notation "'let?' x ':=' r 'in' k" := (rbind r (fun x => k))
  (at level 10, x pattern, r at level 100, k at level 200) : result_scope.

(** ** Text encodings of the Python runtime *)

Module Codec.
Local Open Scope N_scope.

Definition cont (c : ascii) : bool :=
  let n := N_of_ascii c in (0x80 <=? n) && (n <=? 0xBF).
Definition between (lo hi : N) (c : ascii) : bool :=
  let n := N_of_ascii c in (lo <=? n) && (n <=? hi).

(** Acceptance of the strict UTF-8 decoder: shortest forms only, no
    surrogates, nothing above U+10FFFF. *)
Fixpoint utf8_valid (s : bytes) : bool :=
  match s with
  | EmptyString => true
  | String a r =>
      if N_of_ascii a <=? 0x7F then utf8_valid r
      else
        match r with
        | String b r2 =>
            if between 0xC2 0xDF a then cont b && utf8_valid r2
            else
              match r2 with
              | String c r3 =>
                  if between 0xE0 0xEF a then
                    (if N_of_ascii a =? 0xE0 then between 0xA0 0xBF b
                     else if N_of_ascii a =? 0xED then between 0x80 0x9F b
                     else cont b)
                    && cont c && utf8_valid r3
                  else
                    match r3 with
                    | String d r4 =>
                        between 0xF0 0xF4 a
                        && (if N_of_ascii a =? 0xF0 then between 0x90 0xBF b
                            else if N_of_ascii a =? 0xF4 then between 0x80 0x8F b
                            else cont b)
                        && cont c && cont d && utf8_valid r4
                    | EmptyString => false
                    end
              | EmptyString => false
              end
        | EmptyString => false
        end
  end.

(** [b.decode("utf8")] *)
Definition decode (b : bytes) : result str :=
  if utf8_valid b then Ok b else Raise UnicodeDecodeError.

Definition isspace (c : ascii) : bool :=
  let n := N_of_ascii c in (n =? 32) || ((9 <=? n) && (n <=? 13)).

Definition hexval (c : ascii) : option N :=
  let n := N_of_ascii c in
  if (48 <=? n) && (n <=? 57) then Some (n - 48)
  else if (97 <=? n) && (n <=? 102) then Some (n - 87)
  else if (65 <=? n) && (n <=? 70) then Some (n - 55)
  else None.

(** [bytes.fromhex(s)]: pairs of hex digits, ASCII whitespace skipped
    before a pair; anything else is a [ValueError]. *)
Fixpoint fromhex (s : str) : result bytes :=
  match s with
  | EmptyString => Ok EmptyString
  | String c r =>
      if isspace c then fromhex r
      else
        match hexval c, r with
        | Some hi, String d r2 =>
            match hexval d with
            | Some lo =>
                match fromhex r2 with
                | Ok t => Ok (String (ascii_of_N (16 * hi + lo)) t)
                | Raise e => Raise e
                end
            | None => Raise ValueError
            end
        | _, _ => Raise ValueError
        end
  end.

End Codec.

(** ** The transport's request object *)

(** [blacksheep.Request] as far as the server reads it: the route
    parameters are passed to the handlers separately. *)
Record Request := {
  method : str;
  path : str;
  _raw_query : bytes;
  headers : list (bytes * bytes);
  stream : list bytes
}.

Module Headers.

(** [headers.get_first(name)]: the value of the first header whose name
    matches case-insensitively, [None] when there is none. *)
Fixpoint get_first (hs : list (bytes * bytes)) (name : bytes) : option bytes :=
  match hs with
  | [] => None
  | (n, v) :: rest =>
      if String.eqb (Bytes.lower n) (Bytes.lower name) then Some v
      else get_first rest name
  end.

End Headers.

(** ** Dictionaries built by comprehension *)

Module Dict.

(** Newest binding first; a later binding of a key shadows an earlier one. *)
Definition t := list (str * bytes).

Fixpoint get (k : str) (d : t) : option bytes :=
  match d with
  | [] => None
  | (k', v) :: rest => if String.eqb k' k then Some v else get k rest
  end.

Definition mem (k : str) (d : t) : bool :=
  match get k d with Some _ => true | None => false end.

Definition set (k : str) (v : bytes) (d : t) : t := (k, v) :: d.

End Dict.

(** ** signature_v4.py *)

Module SignatureV4.
Local Open Scope result_scope.

(** The slots of a [SignatureV4] object; [signature] is already
    hex-decoded by the constructor, [amzdate] is whatever
    [get_first(b"x-amz-date")] returned. *)
Record t := {
  key_id : bytes;
  signature : bytes;
  datestamp : bytes;
  region : bytes;
  signed_headers : bytes;
  amzdate : option bytes;
  request : Request
}.

(** [SignatureV4.__init__] *)
Definition init (key_id signature datestamp region signed_headers : bytes)
           (amzdate : option bytes) (request : Request) : result t :=
  let? s := Codec.decode signature in
  let? sig := Codec.fromhex s in
  Ok {| key_id := key_id; signature := sig; datestamp := datestamp;
        region := region; signed_headers := signed_headers;
        amzdate := amzdate; request := request |}.

(** [hmac.new(key, msg, sha256).digest()] *)
Definition _sign (key msg : bytes) : bytes := HMAC.hmac_sha256 key msg.

(** [name + b":" + headers.get_first(name)] for every name; concatenating
    [None] is a [TypeError]. *)
Fixpoint header_lines (hs : list (bytes * bytes)) (names : list bytes)
  : result (list bytes) :=
  match names with
  | [] => Ok []
  | name :: rest =>
      match Headers.get_first hs name with
      | None => Raise TypeError
      | Some v =>
          let? ls := header_lines hs rest in
          Ok ((name ++ ":" ++ v) :: ls)
      end
  end.

Definition canonical_request (self : t) : result bytes :=
  let r := request self in
  let? lines := header_lines (headers r) (Bytes.split ";" (signed_headers self)) in
  match Headers.get_first (headers r) "x-amz-content-sha256" with
  | None => Raise TypeError
  | Some content_sha =>
      Ok (Bytes.join (String "010" EmptyString)
            [ method r; path r; _raw_query r;
              Bytes.join (String "010" EmptyString) lines;
              ""; signed_headers self; content_sha ])
  end.

Definition to_sign (self : t) (canonical : bytes) : result bytes :=
  match amzdate self with
  | None => Raise TypeError
  | Some date =>
      Ok (Bytes.join (String "010" EmptyString)
            [ "AWS4-HMAC-SHA256"; date;
              Bytes.join "/" [datestamp self; region self; "s3"; "aws4_request"];
              SHA256.hexdigest canonical ])
  end.

Definition signing_key (access_key datestamp region : bytes) : bytes :=
  let key := _sign ("AWS" ++ access_key) datestamp in
  let key := _sign key region in
  let key := _sign key "s3" in
  _sign key "aws4_request".

(** [SignatureV4.verify]; the caller may hand in [None] for the access
    key, whose [.encode] is then an [AttributeError]. *)
Definition verify (self : t) (access_key : option str) : result bool :=
  let? canonical := canonical_request self in
  let? ts := to_sign self canonical in
  match access_key with
  | None => Raise AttributeError
  | Some ak =>
      let key := signing_key ak (datestamp self) (region self) in
      Ok (String.eqb (signature self) (_sign key ts))
  end.

(** The dict comprehension over [kv.split(b"=", 1)]: unpacking a
    one-element list is a [ValueError], the key is decoded as UTF-8. *)
Fixpoint auth_dict_of (d : Dict.t) (items : list bytes) : result Dict.t :=
  match items with
  | [] => Ok d
  | kv :: rest =>
      match Bytes.split1 "=" kv with
      | [key; value] =>
          let? k := Codec.decode key in
          auth_dict_of (Dict.set k value d) rest
      | _ => Raise ValueError
      end
  end.

Definition _AUTH_DICT_KEYS : list str := ["Credential"; "SignedHeaders"; "Signature"].

(** [SignatureV4.parse]: [Ok None] is the bare [return]. *)
Definition parse (request : Request) : result (option t) :=
  match Headers.get_first (headers request) "authorization" with
  | None => Ok None
  | Some auth_header =>
      if String.eqb auth_header "" then Ok None
      else
        match Bytes.split " " (Bytes.remove "," auth_header) with
        | [] => Ok None
        | scheme :: auth =>
            if negb (String.eqb scheme "AWS4-HMAC-SHA256") then Ok None
            else
              let? auth_dict := auth_dict_of [] auth in
              if negb (forallb (fun k => Dict.mem k auth_dict) _AUTH_DICT_KEYS)
              then Ok None
              else
                match Dict.get "Credential" auth_dict,
                      Dict.get "SignedHeaders" auth_dict,
                      Dict.get "Signature" auth_dict with
                | Some credential, Some sh, Some sg =>
                    match Bytes.split "/" credential with
                    | key_id :: datestamp :: region :: _ =>
                        let amzdate := Headers.get_first (headers request) "x-amz-date" in
                        let? ctx := init key_id sg datestamp region sh amzdate request in
                        Ok (Some ctx)
                    | _ => Ok None
                    end
                | _, _, _ => Ok None
                end
        end
  end.

End SignatureV4.

(** ** jwt_msgpack.py: the upload token codec *)

Module JWTMpNoTs.

(** The payload dict [{"bucket": ..., "object": ..., "key_id": ...}]. *)
Record fields := {
  bucket : str;
  object : str;
  key_id : option str
}.

Definition unhex_digit (c : ascii) : option N :=
  let n := N_of_ascii c in
  if (48 <=? n)%N && (n <=? 57)%N then Some (n - 48)%N
  else if (97 <=? n)%N && (n <=? 102)%N then Some (n - 87)%N
  else None.

(** Strict inverse of [Bytes.hex]: lower-case digit pairs only. *)
Fixpoint unhex (s : bytes) : option bytes :=
  match s with
  | EmptyString => Some EmptyString
  | String a (String b r) =>
      match unhex_digit a, unhex_digit b, unhex r with
      | Some hi, Some lo, Some t => Some (String (ascii_of_N (16 * hi + lo)) t)
      | _, _, _ => None
      end
  | String _ EmptyString => None
  end.

Definition identity_segment (i : option str) : bytes :=
  match i with
  | None => "~"
  | Some s => Bytes.hex s
  end.

Definition unidentity (seg : bytes) : option (option str) :=
  if String.eqb seg "~" then Some None
  else match unhex seg with
       | Some s => Some (Some s)
       | None => None
       end.

(** The canonical byte-concatenation of the three fields that the tag
    covers. *)
Definition signing_input (b o i : bytes) : bytes := b ++ "." ++ o ++ "." ++ i.

(** Modelled from the spec: [jwt_msgpack.py] is not among the sources.
    [issue(bucket, objectKey, identity, secret)] packs the three fields
    plus an HMAC tag computed over their canonical byte-concatenation:
    here four dot-separated segments, each field in hex and the tag the
    HMAC-SHA256 of the first three segments. *)
Definition encode (f : fields) (secret : bytes) : str :=
  let body := signing_input (Bytes.hex (bucket f)) (Bytes.hex (object f))
                            (identity_segment (key_id f)) in
  body ++ "." ++ Bytes.hex (HMAC.hmac_sha256 secret body).

(** Modelled from the spec: [redeem(token, secret)] returns the three
    fields or invalid ([None]); any tag mismatch, truncated encoding or
    decode error yields invalid. *)
Definition decode (token : str) (secret : bytes) : option fields :=
  match Bytes.split "." token with
  | [b; o; i; tg] =>
      match unhex b, unhex o, unidentity i, unhex tg with
      | Some b', Some o', Some i', Some tag =>
          if String.eqb tag (HMAC.hmac_sha256 secret (signing_input b o i))
          then Some {| bucket := b'; object := o'; key_id := i' |}
          else None
      | _, _, _, _ => None
      end
  | _ => None
  end.

End JWTMpNoTs.

(** ** Domain entities and the backend interface *)

Module Bucket.
Record t := mk { name : str }.
End Bucket.

Module S3Object.
Record t := mk { bucket : Bucket.t; name : str; size : Z }.
End S3Object.

(** The [S3Object | Bucket | None] argument of the access check. *)
Inductive target :=
| NoTarget
| BucketTarget (b : Bucket.t)
| ObjectTarget (o : S3Object.t).

(** A stream object handed out by the backend is known by a handle. *)
Definition handle := nat.

(** A [BaseWriteStream]: a backend sink, or the digest decorator of
    [etag_stream.py] around another stream with the bytes hashed so far. *)
Inductive write_stream :=
| Sink (h : handle)
| ETagWriteStream (inner : write_stream) (fed : bytes).

(** The documents of [responses.py], before serialisation. *)
Inductive xml_doc :=
| ListAllMyBucketsResult (buckets : list Bucket.t) (owner : option str)
| ListBucketResult (bucket : Bucket.t) (objects : list S3Object.t)
| InitiateMultipartUploadResult (obj : S3Object.t) (upload_id : str)
| CompleteMultipartUploadResult (obj : S3Object.t).

(** Backend invocations, in the form the server makes them. *)
Inductive call :=
| CallAccessKey (key_id : option str) (t : target)
| CallListBuckets (key_id : option str)
| CallCreateBucket (key_id : option str) (bucket : str)
| CallListBucket (key_id : option str) (bucket : Bucket.t)
| CallReadObject (obj : S3Object.t)
| CallWriteObject (bucket : Bucket.t) (object_name : str)
| CallCreateMultipartUpload (bucket : Bucket.t) (object_name : str)
| CallWriteObjectMultipart (obj : S3Object.t) (part_id : Z)
| CallFinishMultipartUpload (obj : S3Object.t)
| CallWrite (h : handle) (content : option bytes)
| CallRead (h : handle).

(** [BaseInterface] over a backend state [W]; every operation may raise.
    [write] and [read] are the methods of the streams it hands out. *)
Record BaseInterface (W : Type) := {
  access_key : option str -> target -> W -> result (option str) * W;
  list_buckets : option str -> W -> result (list Bucket.t) * W;
  create_bucket : option str -> str -> W -> result Bucket.t * W;
  list_bucket : option str -> Bucket.t -> W -> result (list S3Object.t) * W;
  read_object : S3Object.t -> W -> result handle * W;
  write_object : Bucket.t -> str -> W -> result write_stream * W;
  create_multipart_upload : Bucket.t -> str -> W -> result S3Object.t * W;
  write_object_multipart : S3Object.t -> Z -> W -> result write_stream * W;
  finish_multipart_upload : S3Object.t -> W -> result unit * W;
  write : handle -> option bytes -> W -> result unit * W;
  read : handle -> W -> result (option bytes) * W
}.
Arguments access_key {W}.
Arguments list_buckets {W}.
Arguments create_bucket {W}.
Arguments list_bucket {W}.
Arguments read_object {W}.
Arguments write_object {W}.
Arguments create_multipart_upload {W}.
Arguments write_object_multipart {W}.
Arguments finish_multipart_upload {W}.
Arguments write {W}.
Arguments read {W}.

(** What the server uses from outside the sources: the serialiser of
    [responses.py] and the built-ins [str.isdigit] and [int]. *)
Record Runtime := {
  to_xml : xml_doc -> str;
  isdigit : str -> bool;
  int : str -> result Z
}.

(** [blacksheep.Response]; a streamed body is named by its stream. *)
Record Response := {
  status : Z;
  response_headers : list (bytes * bytes);
  content : option (bytes * handle)
}.

(** What a handler returns: text, a response, or nothing. *)
Inductive reply :=
| Text (s : str)
| Resp (r : Response)
| ReturnNone.

(** ** server.py *)

Section Router.
Context {W : Type}.
Variable interface : BaseInterface W.
Variable rt : Runtime.

(** Handlers run over the backend state and the log of backend calls;
    an exception ends the run and keeps the state reached. *)
Definition M (A : Type) : Type := W * list call -> result A * (W * list call).

Definition ret {A} (a : A) : M A := fun s => (Ok a, s).
Definition raise {A} (e : exception) : M A := fun s => (Raise e, s).
Definition bind {A B} (m : M A) (k : A -> M B) : M B :=
  fun s => match m s with
           | (Ok a, s') => k a s'
           | (Raise e, s') => (Raise e, s')
           end.
Definition lift {A} (r : result A) : M A := fun s => (r, s).
Definition assert (b : bool) : M unit :=
  if b then ret tt else raise AssertionError.

(** A backend call: logged, then run on the backend state. *)
Definition invoke {A} (c : call) (op : W -> result A * W) : M A :=
  fun s => let '(r, w) := op (fst s) in (r, (w, (snd s ++ [c])%list)).

Notation "x <- m ;; k" := (bind m (fun x => k))
  (at level 61, m at next level, right associativity).
Notation "m ;;; k" := (bind m (fun _ => k))
  (at level 61, right associativity).

(** [a == b] on values that are a [str] or [None]. *)
Definition identity_eqb (a b : option str) : bool :=
  match a, b with
  | Some x, Some y => String.eqb x y
  | None, None => true
  | _, _ => false
  end.

(** [{k: v for k, v in [kv.decode("utf8").split("=") for kv in
    raw.split(b"&")]}]: the inner list is built first, then every
    element is unpacked into exactly two names. *)
Fixpoint decode_items (items : list bytes) : result (list (list str)) :=
  match items with
  | [] => Ok []
  | kv :: rest =>
      match Codec.decode kv with
      | Ok s =>
          match decode_items rest with
          | Ok l => Ok (Bytes.split "=" s :: l)
          | Raise e => Raise e
          end
      | Raise e => Raise e
      end
  end.

Fixpoint dict_of_pairs (d : Dict.t) (pairs : list (list str)) : result Dict.t :=
  match pairs with
  | [] => Ok d
  | [k; v] :: rest => dict_of_pairs (Dict.set k v d) rest
  | _ :: _ => Raise ValueError
  end.

Definition parse_query (raw : bytes) : result Dict.t :=
  match decode_items (Bytes.split "&" raw) with
  | Ok pairs => dict_of_pairs [] pairs
  | Raise e => Raise e
  end.

(** Modelled from the spec: [etag_stream.py] is not among the sources.
    The digest decorator feeds every chunk passed through into a running
    MD5 and hands the chunk, or the end-of-data marker, to the sink it
    wraps. *)
Fixpoint stream_write (s : write_stream) (content : option bytes) : M write_stream :=
  match s with
  | Sink h =>
      invoke (CallWrite h content) (write interface h content) ;;;
      ret (Sink h)
  | ETagWriteStream inner fed =>
      inner' <- stream_write inner content ;;
      ret (ETagWriteStream inner'
             (match content with Some c => fed ++ c | None => fed end))
  end.

(** Modelled from the spec: on finalize the decorator exposes the
    hex-encoded digest; a bare sink has no such method. *)
Definition hexdigest (s : write_stream) : result bytes :=
  match s with
  | ETagWriteStream _ fed => Ok (MD5.hexdigest fed)
  | Sink _ => Raise AttributeError
  end.

Definition _auth (request : Request) (bucket_or_object : target) : M (option str) :=
  state <- lift (SignatureV4.parse request) ;;
  key_id <- match state with
            | Some st =>
                k <- lift (Codec.decode (SignatureV4.key_id st)) ;; ret (Some k)
            | None => ret None
            end ;;
  access_key <- invoke (CallAccessKey key_id bucket_or_object)
                       (access_key interface key_id bucket_or_object) ;;
  match state with
  | None => raise AttributeError
  | Some st =>
      lift (SignatureV4.verify st access_key) ;;;
      ret key_id
  end.

Definition _list_buckets (request : Request) : M reply :=
  key_id <- _auth request NoTarget ;;
  buckets <- invoke (CallListBuckets key_id) (list_buckets interface key_id) ;;
  ret (Text (to_xml rt (ListAllMyBucketsResult buckets key_id))).



Definition _read_object (request : Request) (bucket_name object_name : str) : M reply :=
  let object_ := S3Object.mk (Bucket.mk bucket_name) object_name 0 in
  _auth request (ObjectTarget object_) ;;;
  stream <- invoke (CallReadObject object_) (read_object interface object_) ;;
  ret (Resp {| status := 200; response_headers := [];
               content := Some ("application/octet-stream", stream) |}).

(** The generator handed to [StreamedContent]: every chunk read until the
    stream returns [None].  [None] here means the fuel ran out first. *)
Fixpoint _provider (fuel : nat) (stream : handle) : M (option (list bytes)) :=
  match fuel with
  | O => ret None
  | S k =>
      data <- invoke (CallRead stream) (read interface stream) ;;
      match data with
      | None => ret (Some [])
      | Some d =>
          rest <- _provider k stream ;;
          ret (option_map (cons d) rest)
      end
  end.

(** [async for chunk in request.stream(): if chunk: await stream.write(chunk)] *)
Fixpoint write_chunks (s : write_stream) (chunks : list bytes) : M write_stream :=
  match chunks with
  | [] => ret s
  | chunk :: rest =>
      if String.eqb chunk "" then write_chunks s rest
      else s' <- stream_write s (Some chunk) ;; write_chunks s' rest
  end.

Definition _write_object (request : Request) (bucket_name object_name : str) : M reply :=
  let body := stream request in
  query <- lift (parse_query (_raw_query request)) ;;
  upload_info <-
    (if Dict.mem "uploadId" query then
       assert (match Dict.get "partNumber" query with
               | Some p => isdigit rt p
               | None => false
               end) ;;;
       match Dict.get "uploadId" query with
       | None => raise KeyError
       | Some upload_id =>
           match JWTMpNoTs.decode upload_id "123456" with
           | None => raise TypeError
           | Some info =>
               assert (String.eqb (JWTMpNoTs.bucket info) bucket_name) ;;;
               assert (String.eqb (JWTMpNoTs.object info) object_name) ;;;
               ret (Some info)
           end
       end
     else ret None) ;;
  let bucket := Bucket.mk bucket_name in
  key_id <- _auth request (BucketTarget bucket) ;;
  match upload_info with
  | Some info =>
      assert (identity_eqb (JWTMpNoTs.key_id info) key_id)
  | None => ret tt
  end ;;;
  stream <-
    match upload_info with
    | None => invoke (CallWriteObject bucket object_name)
                     (write_object interface bucket object_name)
    | Some _ =>
        let object_ := S3Object.mk bucket object_name 0 in
        part <- lift (match Dict.get "partNumber" query with
                      | Some p => int rt p
                      | None => Raise KeyError
                      end) ;;
        invoke (CallWriteObjectMultipart object_ part)
               (write_object_multipart interface object_ part)
    end ;;
  let stream := match stream with
                | ETagWriteStream _ _ => stream
                | Sink _ => ETagWriteStream stream ""
                end in
  stream <- write_chunks stream body ;;
  stream <- stream_write stream None ;;
  etag <- lift (hexdigest stream) ;;
  ret (Resp {| status := 200; response_headers := [("ETag", etag)];
               content := None |}).

Definition _create_multipart (request : Request) (bucket_name object_name : str) : M reply :=
  query <- lift (parse_query (_raw_query request)) ;;
  assert (Dict.mem "uploads" query || Dict.mem "uploadId" query) ;;;
  let bucket := Bucket.mk bucket_name in
  let object_ := S3Object.mk bucket object_name 0 in
  key_id <- _auth request (BucketTarget bucket) ;;
  if Dict.mem "uploads" query then
    obj <- invoke (CallCreateMultipartUpload bucket object_name)
                  (create_multipart_upload interface bucket object_name) ;;
    let upload_id :=
      JWTMpNoTs.encode {| JWTMpNoTs.bucket := Bucket.name bucket;
                          JWTMpNoTs.object := S3Object.name obj;
                          JWTMpNoTs.key_id := key_id |} "123456" in
    ret (Text (to_xml rt (InitiateMultipartUploadResult obj upload_id)))
  else if Dict.mem "uploadId" query then
    match Dict.get "uploadId" query with
    | None => raise KeyError
    | Some upload_id =>
        match JWTMpNoTs.decode upload_id "123456" with
        | None => raise TypeError
        | Some info =>
            assert (String.eqb (JWTMpNoTs.bucket info) bucket_name) ;;;
            assert (String.eqb (JWTMpNoTs.object info) object_name) ;;;
            assert (identity_eqb (JWTMpNoTs.key_id info) key_id) ;;;
            invoke (CallFinishMultipartUpload object_)
                   (finish_multipart_upload interface object_) ;;;
            ret (Text (to_xml rt (CompleteMultipartUploadResult object_)))
        end
    end
  else ret ReturnNone.

End Router.

(** ** Vocabulary of the claims about the router *)


(** The errors that answer a failed authentication or authorisation. *)
Definition is_authentication_error (e : exception) : bool :=
  match e with
  | AccessDenied | InvalidAccessKeyId => true
  | _ => false
  end.

(** Calls that open a write stream or push into one. *)
Definition is_write_call (c : call) : bool :=
  match c with
  | CallWriteObject _ _ | CallWriteObjectMultipart _ _ | CallWrite _ _ => true
  | _ => false
  end.

Definition is_finish_call (c : call) : bool :=
  match c with
  | CallFinishMultipartUpload _ => true
  | _ => false
  end.






(** ** The shape of an [Authorization] header as the specification words it *)

Module ParseSpec.

Definition SCHEME : bytes := "AWS4-HMAC-SHA256".

(** The words of the header: commas dropped, cut at every space. *)
Definition words (h : bytes) : list bytes := Bytes.split " " (Bytes.remove "," h).

Definition scheme (h : bytes) : bytes := hd "" (words h).

(** What follows the scheme. *)
Definition items (h : bytes) : list bytes := tl (words h).

(** An item reads [name=value]; the value starts after the first [=]. *)
Definition name_of (w : bytes) : bytes := hd "" (Bytes.split1 "=" w).

Definition value_of (w : bytes) : bytes :=
  match Bytes.split1 "=" w with
  | [_; v] => v
  | _ => ""
  end.

Definition is_pair (w : bytes) : bool :=
  Bytes.has "=" w && Codec.utf8_valid (name_of w).

(** The sub-field [name]: the value of the last item so named. *)
Fixpoint field (name : bytes) (ws : list bytes) : option bytes :=
  match ws with
  | [] => None
  | w :: rest =>
      match field name rest with
      | Some v => Some v
      | None =>
          if String.eqb (name_of w) name && Bytes.has "=" w
          then Some (value_of w) else None
      end
  end.

Definition is_hex (sg : bytes) : bool :=
  Codec.utf8_valid sg
  && match Codec.fromhex sg with Ok _ => true | Raise _ => false end.

(** Every item is a [name=value] pair and the signature, if there is one,
    is written in hex. *)
Definition well_formed (h : bytes) : bool :=
  forallb is_pair (items h)
  && match field "Signature" (items h) with
     | Some sg => is_hex sg
     | None => true
     end.

(** The four reasons for an absent result: no header, another scheme, a
    missing sub-field, a credential scope of fewer than three segments. *)
Definition absent (r : Request) : Prop :=
  match Headers.get_first (headers r) "authorization" with
  | None => True
  | Some h =>
      scheme h <> SCHEME
      \/ field "Credential" (items h) = None
      \/ field "SignedHeaders" (items h) = None
      \/ field "Signature" (items h) = None
      \/ exists cred, field "Credential" (items h) = Some cred
                      /\ List.length (Bytes.split "/" cred) < 3
  end.

End ParseSpec.

(** ** The signature check as the specification words it *)

Module SigV4Spec.
Import SignatureV4.

Definition LF : bytes := String "010" EmptyString.

(** [key0 = HMAC("AWS"+secret, dateStamp)], [key1 = HMAC(key0, region)],
    [key2 = HMAC(key1, "s3")], [key3 = HMAC(key2, "aws4_request")]. *)
Definition key3 (secret dateStamp region : bytes) : bytes :=
  let key0 := HMAC.hmac_sha256 ("AWS" ++ secret) dateStamp in
  let key1 := HMAC.hmac_sha256 key0 region in
  let key2 := HMAC.hmac_sha256 key1 "s3" in
  HMAC.hmac_sha256 key2 "aws4_request".

(** The header name as it is spelled in the signed-header list. *)
Definition raw (name : bytes) : bytes := name.

(** One [name:value] line per signed header, in list order; [norm] is
    what is done to the name. *)
Fixpoint header_block (norm : bytes -> bytes) (hs : list (bytes * bytes))
         (names : list bytes) : option (list bytes) :=
  match names with
  | [] => Some []
  | n :: rest =>
      match Headers.get_first hs n, header_block norm hs rest with
      | Some v, Some ls => Some ((norm n ++ ":" ++ v) :: ls)
      | _, _ => None
      end
  end.

(** Method, path, raw query, the header lines, a blank line, the
    signed-header list, the content-hash header value. *)
Definition canonical (norm : bytes -> bytes) (c : t) : option bytes :=
  let r := request c in
  match header_block norm (headers r) (Bytes.split ";" (signed_headers c)),
        Headers.get_first (headers r) "x-amz-content-sha256" with
  | Some ls, Some h =>
      Some (Bytes.join LF ([method r; path r; _raw_query r] ++ ls
                           ++ [""; signed_headers c; h])%list)
  | _, _ => None
  end.

(** Algorithm tag, timestamp, credential scope, hex SHA-256 of the
    canonical request. *)
Definition toSign (norm : bytes -> bytes) (c : t) : option bytes :=
  match canonical norm c, amzdate c with
  | Some cr, Some ts =>
      Some (Bytes.join LF
              [ "AWS4-HMAC-SHA256"; ts;
                datestamp c ++ "/" ++ region c ++ "/" ++ "s3" ++ "/" ++ "aws4_request";
                SHA256.hexdigest cr ])
  | _, _ => None
  end.

(** The request-supplied signature equals [HMAC(key3, toSign)]. *)
Definition accepts (norm : bytes -> bytes) (c : t) (secret : bytes) : Prop :=
  exists ts, toSign norm c = Some ts
             /\ signature c = HMAC.hmac_sha256 (key3 secret (datestamp c) (region c)) ts.

(** The same comparison as a decision. *)
Definition accepts_b (norm : bytes -> bytes) (c : t) (secret : bytes) : bool :=
  match toSign norm c with
  | Some ts =>
      String.eqb (signature c)
                 (HMAC.hmac_sha256 (key3 secret (datestamp c) (region c)) ts)
  | None => false
  end.

End SigV4Spec.

(** ** test/conftest.py: the in-memory backend *)

Module InMemoryReadStream.
Local Open Scope Z_scope.

Record t := { _file : bytes; _pos : Z; _to_read : Z }.

Definition len (b : bytes) : Z := Z.of_nat (String.length b).

(** [InMemoryReadStream(file, start_pos, to_read)] *)
Definition init (file : bytes) (start_pos to_read : Z) : t :=
  {| _file := file; _pos := start_pos;
     _to_read := if to_read <? 0 then len file else to_read |}.

(** [BytesIO.read(n)] at position [pos]: a negative [n] reads to the end. *)
Definition file_read (file : bytes) (pos n : Z) : bytes :=
  let rest := Bytes.drop (Z.to_nat pos) file in
  if n <? 0 then rest else Bytes.take (Z.to_nat n) rest.

(** [read]: seeking to a negative position is a [ValueError]. *)
Definition read (s : t) : result (option bytes) * t :=
  if _pos s <? 0 then (Raise ValueError, s)
  else
    let data := file_read (_file s) (_pos s) (Z.min (_to_read s) (32 * 1024)) in
    let s' := {| _file := _file s; _pos := _pos s + len data;
                 _to_read := _to_read s - len data |} in
    (if String.eqb data "" then Ok None else Ok (Some data), s').

End InMemoryReadStream.

Module InMemoryInterface.

(** One stored object, the read stream opened on it and what the write
    sink received. *)
Record state := {
  file : bytes;
  reader : InMemoryReadStream.t;
  written : list (option bytes)
}.

Definition access_key (key_id : option str) (object_ : target) (w : state)
  : result (option str) * state :=
  let named k := match key_id with Some s => String.eqb s k | None => false end in
  if named "valid_access" then (Ok (Some "access_key"), w)
  else if named "valid_no_access" then (Raise AccessDenied, w)
  else if named "invalid" then (Raise InvalidAccessKeyId, w)
  else
    let bucket := match object_ with
                  | ObjectTarget o => Some (S3Object.bucket o)
                  | BucketTarget b => Some b
                  | NoTarget => None
                  end in
    match bucket with
    | None => (Raise AccessDenied, w)
    | Some b =>
        if String.eqb (Bucket.name b) "public" then (Ok None, w)
        else (Raise AccessDenied, w)
    end.

(** The stream [read_object] builds for a content range. *)
Definition open_read (file : bytes) (content_range : option (Z * Z))
  : InMemoryReadStream.t :=
  match content_range with
  | Some (start, stop) => InMemoryReadStream.init file start (stop - start)
  | None => InMemoryReadStream.init file 0 (-1)
  end.

Definition with_reader (w : state) (r : InMemoryReadStream.t) : state :=
  {| file := file w; reader := r; written := written w |}.

Definition interface : BaseInterface state :=
  Build_BaseInterface state
    (* access_key *) access_key
    (* list_buckets *) (fun _ w => (Ok [], w))
    (* create_bucket *) (fun _ name w => (Ok (Bucket.mk name), w))
    (* list_bucket *) (fun _ _ w => (Ok [], w))
    (* read_object *) (fun _ w => (Ok 0, with_reader w (open_read (file w) None)))
    (* write_object *) (fun _ _ w => (Ok (Sink 0), w))
    (* create_multipart_upload *) (fun b n w => (Ok (S3Object.mk b n 0), w))
    (* write_object_multipart *) (fun _ _ w => (Ok (Sink 0), w))
    (* finish_multipart_upload *) (fun _ w => (Ok tt, w))
    (* write *) (fun _ c w =>
       (Ok tt, {| file := file w; reader := reader w;
                  written := (written w ++ [c])%list |}))
    (* read *) (fun _ w =>
       let '(r, s) := InMemoryReadStream.read (reader w) in (r, with_reader w s)).

Definition empty : state :=
  {| file := ""; reader := open_read "" None; written := [] |}.

(** A backend holding [content] with a read stream open on the half-open
    range [[start, stop)]. *)
Definition reading (content : bytes) (start stop : Z) : state :=
  {| file := content; reader := open_read content (Some (start, stop));
     written := [] |}.

End InMemoryInterface.



(** ** Requests, runtime and tokens used in the examples *)

Module Fixtures.
Import SignatureV4.

Definition empty_sha : bytes :=
  "e3b0c44298fc1c149afbf4c8996fb92427ae41e4649b934ca495991b7852b855".

Definition unsigned (meth target query : bytes) (body : list bytes) : Request :=
  {| method := meth; path := target; _raw_query := query;
     headers := [ ("host", "s3server.test");
                  ("x-amz-content-sha256", empty_sha);
                  ("x-amz-date", "20240101T000000Z") ];
     stream := body |}.

Definition authorization (key_id signed_headers signature : bytes) : bytes :=
  "AWS4-HMAC-SHA256 Credential=" ++ key_id
  ++ "/20240101/us-east-1/s3/aws4_request, SignedHeaders=" ++ signed_headers
  ++ ", Signature=" ++ signature.

Definition with_authorization (r : Request) (value : bytes) : Request :=
  {| method := method r; path := path r; _raw_query := _raw_query r;
     headers := (headers r ++ [("authorization", value)])%list;
     stream := stream r |}.

(** The signature a SigV4 client sends for [r] under [secret]. *)
Definition client_signature (r : Request) (signed_headers secret : bytes) : bytes :=
  let ctx := {| key_id := ""; signature := ""; datestamp := "20240101";
                region := "us-east-1"; signed_headers := signed_headers;
                amzdate := Headers.get_first (headers r) "x-amz-date";
                request := r |} in
  match canonical_request ctx with
  | Ok c =>
      match to_sign ctx c with
      | Ok ts => Bytes.hex (_sign (signing_key secret "20240101" "us-east-1") ts)
      | Raise _ => ""
      end
  | Raise _ => ""
  end.

Definition signed (r : Request) (key_id signed_headers secret : bytes) : Request :=
  with_authorization r
    (authorization key_id signed_headers (client_signature r signed_headers secret)).

Definition lower_names : bytes := "host;x-amz-content-sha256;x-amz-date".
Definition mixed_names : bytes := "Host;x-amz-content-sha256;x-amz-date".

(** A correctly signed [GET /]. *)
Definition get_root : Request :=
  Eval vm_compute in
    signed (unsigned "GET" "/" "" []) "valid_access" lower_names "access_key".

(** The same request with the [Host] header, and its name in the
    signed-header list, spelled with a capital. *)
Definition get_root_mixed : Request :=
  Eval vm_compute in
    signed {| method := "GET"; path := "/"; _raw_query := "";
              headers := [ ("Host", "s3server.test");
                           ("x-amz-content-sha256", empty_sha);
                           ("x-amz-date", "20240101T000000Z") ];
              stream := [] |}
           "valid_access" mixed_names "access_key".

Definition no_context : SignatureV4.t :=
  {| key_id := ""; signature := ""; datestamp := ""; region := "";
     signed_headers := ""; amzdate := None; request := unsigned "" "" "" [] |}.

(** The signing context [parse] builds for a request. *)
Definition context_of (r : Request) : SignatureV4.t :=
  match parse r with
  | Ok (Some c) => c
  | _ => no_context
  end.

Definition mixed_context : SignatureV4.t :=
  Eval vm_compute in context_of get_root_mixed.

(** [GET /] whose header has all three sub-fields and a signature that is
    not hex. *)
Definition get_root_not_hex : Request :=
  with_authorization (unsigned "GET" "/" "" [])
    (authorization "valid_access" lower_names "zz").

(** [GET /] whose header has the scheme and one word that is no pair. *)
Definition get_root_no_pair : Request :=
  with_authorization (unsigned "GET" "/" "" []) "AWS4-HMAC-SHA256 oops".

(** [GET /] with a well-formed header whose signature is all zeros. *)
Definition get_root_forged : Request :=
  with_authorization (unsigned "GET" "/" "" [])
    (authorization "valid_access" lower_names
       "0000000000000000000000000000000000000000000000000000000000000000").

(** [GET /public/hello] with no [Authorization] header. *)
Definition get_anonymous : Request := unsigned "GET" "/public/hello" "" [].

Definition ascii_digit (c : ascii) : bool :=
  let n := N_of_ascii c in (48 <=? n)%N && (n <=? 57)%N.

Fixpoint all_digits (s : str) : bool :=
  match s with
  | EmptyString => true
  | String c r => ascii_digit c && all_digits r
  end.

Fixpoint decimal (acc : Z) (s : str) : Z :=
  match s with
  | EmptyString => acc
  | String c r => decimal (10 * acc + (Z.of_N (N_of_ascii c) - 48)) r
  end.

Definition element (tag body : str) : str :=
  "<" ++ tag ++ ">" ++ body ++ "</" ++ tag ++ ">".

(** A runtime for the examples: ASCII digits for [isdigit] and [int], and
    a bare-bones rendering standing in for [responses.py]. *)
Definition runtime : Runtime :=
  {| to_xml := fun doc =>
       match doc with
       | ListAllMyBucketsResult bs _ =>
           element "ListAllMyBucketsResult"
             (String.concat "" (List.map (fun b => element "Name" (Bucket.name b)) bs))
       | ListBucketResult b os =>
           element "ListBucketResult"
             (element "Name" (Bucket.name b)
              ++ String.concat "" (List.map (fun o => element "Key" (S3Object.name o)) os))
       | InitiateMultipartUploadResult o id =>
           element "InitiateMultipartUploadResult"
             (element "Key" (S3Object.name o) ++ element "UploadId" id)
       | CompleteMultipartUploadResult o =>
           element "CompleteMultipartUploadResult" (element "Key" (S3Object.name o))
       end;
     isdigit := fun s => negb (String.eqb s "") && all_digits s;
     int := fun s =>
       if negb (String.eqb s "") && all_digits s then Ok (decimal 0 s)
       else Raise ValueError |}.

Definition photos : JWTMpNoTs.fields :=
  {| JWTMpNoTs.bucket := "photos"; JWTMpNoTs.object := "cat.png";
     JWTMpNoTs.key_id := Some "valid_access" |}.

(** The upload-id issued for [photos/cat.png] to [valid_access]. *)
Definition photos_token : str :=
  Eval vm_compute in JWTMpNoTs.encode photos "123456".

(** The upload-id issued for the same object to another identity. *)
Definition stranger_token : str :=
  Eval vm_compute in
    JWTMpNoTs.encode {| JWTMpNoTs.bucket := "photos"; JWTMpNoTs.object := "cat.png";
                         JWTMpNoTs.key_id := Some "somebody_else" |} "123456".

Definition put (target query : bytes) (body : list bytes) : Request :=
  signed (unsigned "PUT" target query body) "valid_access" lower_names "access_key".

Definition post (target query : bytes) : Request :=
  signed (unsigned "POST" target query []) "valid_access" lower_names "access_key".

(** A part upload to [albums/cat.png] carrying the token of
    [photos/cat.png]. *)
Definition part_wrong_bucket : Request :=
  Eval vm_compute in
    put "/albums/cat.png" ("partNumber=1&uploadId=" ++ photos_token) ["data"].

(** A part upload to [photos/cat.png] by [valid_access] carrying the token
    issued to somebody else. *)
Definition part_wrong_identity : Request :=
  Eval vm_compute in
    put "/photos/cat.png" ("partNumber=1&uploadId=" ++ stranger_token) ["data"].

(** A single-part upload whose body arrives in three chunks, one empty. *)
Definition put_hello : Request :=
  Eval vm_compute in put "/photos/hello.txt" "x-id=PutObject" ["hello "; ""; "world"].


Definition post_both : Request :=
  Eval vm_compute in post "/photos/cat.png" "uploads=1&uploadId=abc".

(** A correctly signed read that asks for bytes 2 to 5. *)
Definition get_ranged : Request :=
  Eval vm_compute in
    (let r := signed (unsigned "GET" "/photos/hello.txt" "" [])
                     "valid_access" lower_names "access_key" in
     {| method := method r; path := path r; _raw_query := _raw_query r;
        headers := (headers r ++ [("range", "bytes=2-5")])%list;
        stream := stream r |}).

Definition forged_context : SignatureV4.t :=
  Eval vm_compute in context_of get_root_forged.

(** The in-memory backend holding one object. *)
Definition holding (content : bytes) : InMemoryInterface.state :=
  {| InMemoryInterface.file := content;
     InMemoryInterface.reader := InMemoryInterface.open_read "" None;
     InMemoryInterface.written := [] |}.


Definition backend : BaseInterface InMemoryInterface.state :=
  InMemoryInterface.interface.

(** The empty backend with an empty call log. *)
Definition start : InMemoryInterface.state * list call :=
  (InMemoryInterface.empty, []).

End Fixtures.

(** ** Vocabulary of the further properties *)

Module Outcome.

Definition present {A} (o : option A) : bool :=
  match o with Some _ => true | None => false end.

(** Everything [verify] reads from the request is there: each signed
    header, the content hash and the date. *)
Definition signable (c : SignatureV4.t) : bool :=
  let hs := headers (SignatureV4.request c) in
  forallb (fun n => present (Headers.get_first hs n))
          (Bytes.split ";" (SignatureV4.signed_headers c))
  && present (Headers.get_first hs "x-amz-content-sha256")
  && present (SignatureV4.amzdate c).

(** [s.count(c)] for a single byte. *)
Fixpoint occurrences (c : ascii) (s : bytes) : nat :=
  match s with
  | EmptyString => 0
  | String d r => (if Ascii.eqb d c then 1 else 0) + occurrences c r
  end.

(** A list that unpacks into two names. *)
Definition is_pair (p : list str) : bool := Nat.eqb (List.length p) 2.

(** A query item the router can unpack: UTF-8 with exactly one [=]. *)
Definition query_item_ok (kv : bytes) : bool :=
  Codec.utf8_valid kv && Nat.eqb (occurrences "=" kv) 1.

(** The value of the last [name=value] item of a query string. *)
Definition query_value (name : str) (raw : bytes) : option bytes :=
  option_map (fun kv => nth 1 (Bytes.split "=" kv) "")
    (find (fun kv => String.eqb (hd "" (Bytes.split "=" kv)) name)
          (rev (Bytes.split "&" raw))).

End Outcome.

(** ** Vocabulary for the in-memory backend *)

Module Served.

(** A chunk as [InMemoryReadStream.read] hands them out: not empty and at
    most 32 KiB. *)
Definition chunk_ok (c : bytes) : Prop :=
  1 <= String.length c <= 32 * 1024.

(** The bucket an access check is about. *)
Definition bucket_of (t : target) : option Bucket.t :=
  match t with
  | ObjectTarget o => Some (S3Object.bucket o)
  | BucketTarget b => Some b
  | NoTarget => None
  end.

Definition is_public (t : target) : bool :=
  match bucket_of t with
  | Some b => String.eqb (Bucket.name b) "public"
  | None => false
  end.

(** The key ids the in-memory backend knows by name. *)
Definition known (key_id : option str) : bool :=
  match key_id with
  | Some k => String.eqb k "valid_access" || String.eqb k "valid_no_access"
              || String.eqb k "invalid"
  | None => false
  end.

End Served.

(** ** test/conftest.py in full: files, sparse lists and the backend *)

(** A Python [dict] with [str] keys, in insertion order. *)
Module PyDict.

Definition t (V : Type) : Type := list (str * V).

(** [d.get(k)]; [d[k]] is a [KeyError] where this is [None]. *)
Fixpoint get {V} (k : str) (d : t V) : option V :=
  match d with
  | [] => None
  | (k', v) :: rest => if String.eqb k' k then Some v else get k rest
  end.

(** [d[k] = v]: an existing key keeps its place. *)
Fixpoint set {V} (k : str) (v : V) (d : t V) : t V :=
  match d with
  | [] => [(k, v)]
  | (k', v') :: rest =>
      if String.eqb k' k then (k', v) :: rest else (k', v') :: set k v rest
  end.

(** [del d[k]] when the key is there. *)
Fixpoint remove {V} (k : str) (d : t V) : t V :=
  match d with
  | [] => []
  | (k', v) :: rest => if String.eqb k' k then rest else (k', v) :: remove k rest
  end.

Definition mem {V} (k : str) (d : t V) : bool :=
  match get k d with Some _ => true | None => false end.

Definition keys {V} (d : t V) : list str := List.map fst d.

(** [d[k]] on a [defaultdict(dict)]: a missing key is bound to an empty
    dict first. *)
Definition access {V} (k : str) (d : t (t V)) : t V * t (t V) :=
  match get k d with
  | Some inner => (inner, d)
  | None => ([], set k [] d)
  end.

End PyDict.

Module Conftest.

(** [IndexError], raised by [list.__setitem__]. *)
Definition IndexError : exception := BackendError 1.

(** An [io.BytesIO]: its bytes and its position. *)
Record BytesIO := { buffer : bytes; position : nat }.

Definition new_file : BytesIO := {| buffer := ""; position := 0 |}.

(** [file.write(data)]: an empty write does nothing; otherwise the data
    replace what is at the position, after zero filling up to it. *)
Definition file_write (f : BytesIO) (data : bytes) : BytesIO :=
  if String.eqb data "" then f
  else
    let padded :=
      buffer f ++ Bytes.repeat zero (position f - String.length (buffer f)) in
    {| buffer := Bytes.take (position f) padded ++ data
                 ++ Bytes.drop (position f + String.length data) padded;
       position := position f + String.length data |}.

(** [file.seek(pos)] *)
Definition file_seek (f : BytesIO) (pos : Z) : result BytesIO :=
  if (pos <? 0)%Z then Raise ValueError
  else Ok {| buffer := buffer f; position := Z.to_nat pos |}.

(** [file.read(n)]: a negative [n] reads to the end. *)
Definition file_read (f : BytesIO) (n : Z) : bytes * BytesIO :=
  let rest := Bytes.drop (position f) (buffer f) in
  let data := if (n <? 0)%Z then rest else Bytes.take (Z.to_nat n) rest in
  (data, {| buffer := buffer f; position := position f + String.length data |}).

(** A file object is known by its index in the heap of files. *)
Definition file_id := nat.

(** [class SparseList(list)] of files; a slot never written holds [None]. *)
Module SparseList.

Definition t := list (option file_id).

(** [list.__setitem__(index, value)] with Python's negative indices. *)
Definition list_setitem (l : t) (index : Z) (value : option file_id) : result t :=
  let n := Z.of_nat (List.length l) in
  let i := if (index <? 0)%Z then (index + n)%Z else index in
  if ((i <? 0) || (n <=? i))%Z then Raise IndexError
  else Ok (firstn (Z.to_nat i) l ++ value :: skipn (S (Z.to_nat i)) l)%list.

(** [__setitem__]: the list is extended with [None] up to the index. *)
Definition setitem (l : t) (index : Z) (value : option file_id) : result t :=
  let missing := (index - Z.of_nat (List.length l) + 1)%Z in
  let l' := if (0 <? missing)%Z
            then (l ++ List.repeat None (Z.to_nat missing))%list else l in
  list_setitem l' index value.

(** [__getitem__]: an [IndexError] becomes [None]. *)
Definition getitem (l : t) (index : Z) : option file_id :=
  let n := Z.of_nat (List.length l) in
  let i := if (index <? 0)%Z then (index + n)%Z else index in
  if ((i <? 0) || (n <=? i))%Z then None
  else nth (Z.to_nat i) l None.

End SparseList.

(** The attributes of [InMemoryInterface] and the files they refer to. *)
Record state := {
  files : list BytesIO;
  _buckets : PyDict.t Bucket.t;
  _objects : PyDict.t (PyDict.t file_id);
  _multipart_uploads : PyDict.t (PyDict.t SparseList.t)
}.

(** [reset] *)
Definition reset : state :=
  {| files := []; _buckets := []; _objects := []; _multipart_uploads := [] |}.

Definition file_at (w : state) (id : file_id) : BytesIO := nth id (files w) new_file.

Fixpoint replace_nth {A} (n : nat) (x : A) (l : list A) : list A :=
  match n, l with
  | O, _ :: r => x :: r
  | S k, a :: r => a :: replace_nth k x r
  | _, [] => []
  end.

Definition with_files (w : state) (fs : list BytesIO) : state :=
  {| files := fs; _buckets := _buckets w; _objects := _objects w;
     _multipart_uploads := _multipart_uploads w |}.

Definition with_file (w : state) (id : file_id) (f : BytesIO) : state :=
  with_files w (replace_nth id f (files w)).

Definition with_objects (w : state) (o : PyDict.t (PyDict.t file_id)) : state :=
  {| files := files w; _buckets := _buckets w; _objects := o;
     _multipart_uploads := _multipart_uploads w |}.

Definition with_uploads (w : state) (u : PyDict.t (PyDict.t SparseList.t)) : state :=
  {| files := files w; _buckets := _buckets w; _objects := _objects w;
     _multipart_uploads := u |}.

Definition with_buckets (w : state) (b : PyDict.t Bucket.t) : state :=
  {| files := files w; _buckets := b; _objects := _objects w;
     _multipart_uploads := _multipart_uploads w |}.

(** [BytesIO()]: a new file at the end of the heap. *)
Definition allocate (w : state) : file_id * state :=
  (List.length (files w), with_files w (files w ++ [new_file])%list).

(** [InMemoryWriteStream.write] *)
Definition write (file : file_id) (content : option bytes) (w : state) : state :=
  match content with
  | Some c => with_file w file (file_write (file_at w file) c)
  | None => w
  end.

(** An [InMemoryReadStream] over a file of the heap. *)
Record InMemoryReadStream := { _file : file_id; _pos : Z; _to_read : Z }.

(** [InMemoryReadStream(file, start_pos, to_read)] *)
Definition open (w : state) (file : file_id) (start_pos to_read : Z)
  : InMemoryReadStream :=
  {| _file := file; _pos := start_pos;
     _to_read := if (to_read <? 0)%Z
                 then Z.of_nat (String.length (buffer (file_at w file)))
                 else to_read |}.

(** [InMemoryReadStream.read] *)
Definition read (r : InMemoryReadStream) (w : state)
  : result (option bytes) * InMemoryReadStream * state :=
  match file_seek (file_at w (_file r)) (_pos r) with
  | Raise e => (Raise e, r, w)
  | Ok f =>
      let '(data, f') := file_read f (Z.min (_to_read r) (32 * 1024)) in
      let len := Z.of_nat (String.length data) in
      (if String.eqb data "" then Ok None else Ok (Some data),
       {| _file := _file r; _pos := (_pos r + len)%Z;
          _to_read := (_to_read r - len)%Z |},
       with_file w (_file r) f')
  end.

(** Reading a stream until it returns [None]; [None] here means the fuel
    ran out first. *)
Fixpoint read_to_end (fuel : nat) (r : InMemoryReadStream) (w : state)
  : result (option (list bytes)) * state :=
  match fuel with
  | O => (Ok None, w)
  | S k =>
      match read r w with
      | (Raise e, _, w') => (Raise e, w')
      | (Ok None, _, w') => (Ok (Some []), w')
      | (Ok (Some d), r', w') =>
          match read_to_end k r' w' with
          | (Ok rest, w'') => (Ok (option_map (cons d) rest), w'')
          | (Raise e, w'') => (Raise e, w'')
          end
      end
  end.

Definition create_bucket (key_id : option str) (bucket : str) (w : state)
  : result Bucket.t * state :=
  let buckets := PyDict.set bucket (Bucket.mk bucket) (_buckets w) in
  (match PyDict.get bucket buckets with
   | Some b => Ok b
   | None => Raise KeyError
   end, with_buckets w buckets).

Definition list_buckets (key_id : option str) (w : state)
  : result (list Bucket.t) * state :=
  (Ok (List.map Bucket.mk (PyDict.keys (_buckets w))), w).

Definition list_bucket (key_id : option str) (bucket : Bucket.t) (w : state)
  : result (list S3Object.t) * state :=
  let '(inner, objects) := PyDict.access (Bucket.name bucket) (_objects w) in
  (Ok (List.map (fun kv => S3Object.mk bucket (fst kv)
                             (Z.of_nat (String.length (buffer (file_at w (snd kv))))))
                inner),
   with_objects w objects).

Definition read_object (key_id : option str) (object_ : S3Object.t)
           (content_range : option (Z * Z)) (w : state)
  : result InMemoryReadStream * state :=
  let '(inner, objects) :=
    PyDict.access (Bucket.name (S3Object.bucket object_)) (_objects w) in
  let w' := with_objects w objects in
  match PyDict.get (S3Object.name object_) inner with
  | None => (Raise KeyError, w')
  | Some file =>
      (Ok (match content_range with
           | Some (start, stop) => open w' file start (stop - start)
           | None => open w' file 0 (-1)
           end), w')
  end.

Definition write_object (key_id : option str) (bucket : Bucket.t)
           (object_name : str) (size : Z) (w : state)
  : result file_id * state :=
  let '(file, w1) := allocate w in
  let '(inner, objects) := PyDict.access (Bucket.name bucket) (_objects w1) in
  (Ok file,
   with_objects w1
     (PyDict.set (Bucket.name bucket) (PyDict.set object_name file inner) objects)).

Definition create_multipart_upload (key_id : option str) (bucket : Bucket.t)
           (object_name : str) (w : state)
  : result S3Object.t * state :=
  let '(inner, uploads) :=
    PyDict.access (Bucket.name bucket) (_multipart_uploads w) in
  (Ok (S3Object.mk bucket object_name 0),
   with_uploads w
     (PyDict.set (Bucket.name bucket) (PyDict.set object_name [] inner) uploads)).

Definition write_object_multipart (object_ : S3Object.t) (part_id : Z) (size : Z)
           (w : state)
  : result file_id * state :=
  let '(file, w1) := allocate w in
  let bucket := Bucket.name (S3Object.bucket object_) in
  let '(inner, uploads) := PyDict.access bucket (_multipart_uploads w1) in
  let w2 := with_uploads w1 uploads in
  match PyDict.get (S3Object.name object_) inner with
  | None => (Raise KeyError, w2)
  | Some parts =>
      match SparseList.setitem parts (part_id - 1) (Some file) with
      | Raise e => (Raise e, w2)
      | Ok parts' =>
          (Ok file,
           with_uploads w2
             (PyDict.set bucket (PyDict.set (S3Object.name object_) parts' inner)
                         uploads))
      end
  end.

(** [for part in parts: part.seek(0); file.write(part.read())]; a slot
    holding [None] has no [seek]. *)
Fixpoint append_parts (file : file_id) (parts : SparseList.t) (w : state)
  : result unit * state :=
  match parts with
  | [] => (Ok tt, w)
  | None :: _ => (Raise AttributeError, w)
  | Some part :: rest =>
      match file_seek (file_at w part) 0 with
      | Raise e => (Raise e, w)
      | Ok f =>
          let '(data, f') := file_read f (-1) in
          let w1 := with_file w part f' in
          let w2 := with_file w1 file (file_write (file_at w1 file) data) in
          append_parts file rest w2
      end
  end.

Definition finish_multipart_upload (object_ : S3Object.t) (w : state)
  : result unit * state :=
  let bucket := Bucket.name (S3Object.bucket object_) in
  let '(file, w1) := allocate w in
  let '(inner, objects) := PyDict.access bucket (_objects w1) in
  let w2 := with_objects w1
              (PyDict.set bucket (PyDict.set (S3Object.name object_) file inner)
                          objects) in
  let '(uploads_of, uploads) := PyDict.access bucket (_multipart_uploads w2) in
  let w3 := with_uploads w2 uploads in
  match PyDict.get (S3Object.name object_) uploads_of with
  | None => (Raise KeyError, w3)
  | Some parts => append_parts file parts w3
  end.

Definition delete_object (key_id : option str) (object_ : S3Object.t) (w : state)
  : result unit * state :=
  let bucket := Bucket.name (S3Object.bucket object_) in
  let '(inner, objects) := PyDict.access bucket (_objects w) in
  let w' := with_objects w objects in
  if PyDict.mem (S3Object.name object_) inner
  then (Ok tt,
        with_objects w'
          (PyDict.set bucket (PyDict.remove (S3Object.name object_) inner) objects))
  else (Raise KeyError, w').

Definition delete_bucket (key_id : option str) (bucket : Bucket.t) (w : state)
  : result unit * state :=
  let name := Bucket.name bucket in
  let w1 := if PyDict.mem name (_objects w)
            then with_objects w (PyDict.remove name (_objects w)) else w in
  if PyDict.mem name (_buckets w1)
  then (Ok tt, with_buckets w1 (PyDict.remove name (_buckets w1)))
  else (Raise KeyError, w1).

(** The content stored under a bucket and object name. *)
Definition stored (w : state) (bucket object_name : str) : option bytes :=
  match PyDict.get bucket (_objects w) with
  | Some inner =>
      option_map (fun id => buffer (file_at w id)) (PyDict.get object_name inner)
  | None => None
  end.

(** The bytes a sequence of [write] calls carries. *)
Fixpoint data_of (chunks : list (option bytes)) : bytes :=
  match chunks with
  | [] => ""
  | Some c :: rest => c ++ data_of rest
  | None :: rest => data_of rest
  end.

(** One [write] after the other on the same stream. *)
Definition write_all (file : file_id) (chunks : list (option bytes)) (w : state)
  : state :=
  fold_left (fun w c => write file c w) chunks w.

End Conftest.

(** ** Requests and backend states used in the further examples *)

Module Scenes.
Import Fixtures.



(** A PUT with an empty query string. *)
Definition put_no_query : Request := unsigned "PUT" "/photos/cat.png" "" ["data"].

(** A part upload that names no part. *)
Definition put_no_part : Request :=
  unsigned "PUT" "/photos/cat.png" "uploadId=abc" ["data"].

(** The completion of the upload of [photos/cat.png] by [valid_access]. *)
Definition complete_photos : Request :=
  Eval vm_compute in post "/photos/cat.png" ("uploadId=" ++ photos_token).

(** Part 1 of the upload of [photos/cat.png] by [valid_access]. *)
Definition part_photos : Request :=
  Eval vm_compute in
    put "/photos/cat.png" ("partNumber=1&uploadId=" ++ photos_token) ["data"].

(** The test backend with sinks that refuse the end-of-data marker. *)
Definition failing_sink : BaseInterface InMemoryInterface.state :=
  Build_BaseInterface InMemoryInterface.state
    (access_key backend) (list_buckets backend) (create_bucket backend)
    (list_bucket backend) (read_object backend) (write_object backend)
    (create_multipart_upload backend) (write_object_multipart backend)
    (finish_multipart_upload backend)
    (fun h c w =>
       match c with
       | Some _ => write backend h c w
       | None => (Raise (BackendError 500), w)
       end)
    (read backend).

Definition cat : S3Object.t := S3Object.mk (Bucket.mk "photos") "cat.png" 0.

(** The backend after [create_multipart_upload] for [photos/cat.png]. *)
Definition started : Conftest.state :=
  Eval vm_compute in
    snd (Conftest.create_multipart_upload None (Bucket.mk "photos") "cat.png" Conftest.reset).

(** Uploading one part: [write_object_multipart], then the writes. *)
Definition upload_part (object_ : S3Object.t) (part_id : Z)
           (chunks : list (option bytes)) (w : Conftest.state) : Conftest.state :=
  match Conftest.write_object_multipart object_ part_id 0 w with
  | (Ok file, w1) => Conftest.write_all file chunks w1
  | (Raise _, w1) => w1
  end.

(** Part 2 uploaded before part 1. *)
Definition two_parts : Conftest.state :=
  Eval vm_compute in
    upload_part cat 1 [Some "hello "] (upload_part cat 2 [Some "world"] started).

(** Parts 1 and 3 uploaded, part 2 never. *)
Definition gap : Conftest.state :=
  Eval vm_compute in
    upload_part cat 3 [Some "!"] (upload_part cat 1 [Some "hello"] started).

(** Two buckets, the first holding one object. *)
Definition stocked : Conftest.state :=
  Eval vm_compute in
    (let w1 := snd (Conftest.create_bucket None "photos" Conftest.reset) in
     let w2 := snd (Conftest.create_bucket None "albums" w1) in
     match Conftest.write_object None (Bucket.mk "photos") "cat.png" 5 w2 with
     | (Ok file, w3) => Conftest.write_all file [Some "hello"] w3
     | (Raise _, w3) => w3
     end).

End Scenes.
(** * Properties *)

(** ** Test vectors for the digests *)

Example sha256_abc :
  SHA256.hexdigest "abc"
  = "ba7816bf8f01cfea414140de5dae2223b00361a396177a9cb410ff61f20015ad".
Proof. vm_compute. reflexivity. Qed.

Example hmac_sha256_fox :
  Bytes.hex (HMAC.hmac_sha256 "key" "The quick brown fox jumps over the lazy dog")
  = "f7bc83f430538424b13298e6aa6fb143ef4d59a14946175997479dbc2d1a3cd8".
Proof. vm_compute. reflexivity. Qed.

Example md5_hello :
  MD5.hexdigest "hello world" = "5eb63bbbe01eeed093cb22bb8f5acdc3".
Proof. vm_compute. reflexivity. Qed.

(** ** Byte-string lemmas *)

Module BytesFacts.
Import Bytes.

Lemma app_assoc (a b c : bytes) : (a ++ b) ++ c = a ++ (b ++ c).
Proof. induction a as [|x a IH]; simpl; [reflexivity | now rewrite IH]. Qed.

Lemma app_empty_r (a : bytes) : a ++ "" = a.
Proof. induction a as [|x a IH]; simpl; [reflexivity | now rewrite IH]. Qed.

Lemma has_app c a b : has c (a ++ b) = has c a || has c b.
Proof.
  induction a as [|x a IH]; simpl; [reflexivity|].
  rewrite IH. now rewrite orb_assoc.
Qed.

Lemma split_no_sep sep s : has sep s = false -> split sep s = [s].
Proof.
  induction s as [|c r IH]; simpl; [reflexivity|].
  intros H. apply orb_false_iff in H as [Hc Hr].
  rewrite Hc, (IH Hr). reflexivity.
Qed.

Lemma split_app_sep sep s r :
  has sep s = false -> split sep (s ++ String sep r) = s :: split sep r.
Proof.
  induction s as [|c s IH]; simpl.
  - intros _. now rewrite Ascii.eqb_refl.
  - intros H. apply orb_false_iff in H as [Hc Hs].
    rewrite Hc, (IH Hs). reflexivity.
Qed.

Lemma split_not_nil sep s : split sep s <> [].
Proof.
  destruct s as [|c r]; simpl; [discriminate|].
  destruct (Ascii.eqb c sep); [discriminate|].
  destruct (split sep r); discriminate.
Qed.

(** Joining the pieces of a split with the separator gives the string back. *)
Lemma join_split sep s : join (String sep "") (split sep s) = s.
Proof.
  induction s as [|c r IH]; [reflexivity|].
  cbn [split].
  destruct (split sep r) as [|p ps] eqn:S; [now apply split_not_nil in S|].
  destruct (Ascii.eqb c sep) eqn:E.
  - apply Ascii.eqb_eq in E. subst c.
    change (join (String sep "") ("" :: p :: ps))
      with (String sep (join (String sep "") (p :: ps))).
    now rewrite IH.
  - destruct ps as [|q qs].
    + cbn [join] in *. now rewrite IH.
    + change (join (String sep "") (String c p :: q :: qs))
        with (String c (join (String sep "") (p :: q :: qs))).
      now rewrite IH.
Qed.

Lemma split_has sep s : has sep s = false <-> split sep s = [s].
Proof.
  split; [apply split_no_sep|].
  induction s as [|c r IH]; simpl; [reflexivity|].
  destruct (Ascii.eqb c sep) eqn:E.
  - intros H. injection H as H _. discriminate.
  - destruct (split sep r) as [|p ps] eqn:S; [now apply split_not_nil in S|].
    intros H. injection H as H1 H2. subst. simpl. now apply IH.
Qed.

Lemma length_app (a b : bytes) :
  String.length (a ++ b) = String.length a + String.length b.
Proof. induction a as [|x a IH]; simpl; [reflexivity | now rewrite IH]. Qed.

End BytesFacts.

(** ** The upload token codec *)

Module TokenFacts.
Import Bytes BytesFacts JWTMpNoTs.

Lemma hex_pair (c : ascii) :
  let n := Z.of_N (N_of_ascii c) in
  unhex_digit (hex_digit (n / 16)) = Some (N_of_ascii c / 16)%N
  /\ unhex_digit (hex_digit (n mod 16)) = Some (N_of_ascii c mod 16)%N
  /\ ascii_of_N (16 * (N_of_ascii c / 16) + N_of_ascii c mod 16) = c.
Proof.
  destruct c as [[|] [|] [|] [|] [|] [|] [|] [|]];
    vm_compute; repeat split; reflexivity.
Qed.

Lemma unhex_hex (s : bytes) : unhex (hex s) = Some s.
Proof.
  induction s as [|c r IH]; [reflexivity|].
  cbn [hex unhex]. cbv zeta.
  destruct (hex_pair c) as (H1 & H2 & H3). cbv zeta in H1, H2.
  rewrite H1, H2, IH, H3. reflexivity.
Qed.

Lemma unhex_digit_inv (a : ascii) (d : N) :
  unhex_digit a = Some d -> (d <? 16)%N = true /\ a = hex_digit (Z.of_N d).
Proof.
  destruct a as [[|] [|] [|] [|] [|] [|] [|] [|]];
    vm_compute; intros H; try discriminate H;
    injection H as <-; split; reflexivity.
Qed.

Lemma hex_of_pair (hi lo : N) :
  (hi <? 16)%N = true -> (lo <? 16)%N = true ->
  hex (String (ascii_of_N (16 * hi + lo)) "")
  = String (hex_digit (Z.of_N hi)) (String (hex_digit (Z.of_N lo)) "").
Proof.
  intros Hh Hl. apply N.ltb_lt in Hh, Hl.
  cbn [hex]. cbv zeta.
  rewrite N_ascii_embedding by lia.
  replace (Z.of_N (16 * hi + lo) / 16)%Z with (Z.of_N hi)
    by (apply Z.div_unique with (Z.of_N lo); lia).
  replace (Z.of_N (16 * hi + lo) mod 16)%Z with (Z.of_N lo)
    by (apply Z.mod_unique with (Z.of_N hi); lia).
  reflexivity.
Qed.

(** [unhex] accepts nothing but the output of [hex]. *)
Lemma hex_unhex (t s : bytes) : unhex s = Some t -> s = hex t.
Proof.
  revert s. induction t as [|c t IH]; intros s H.
  - destruct s as [|a [|b r]]; [reflexivity | discriminate H |].
    cbn [unhex] in H.
    destruct (unhex_digit a), (unhex_digit b), (unhex r); discriminate H.
  - destruct s as [|a [|b r]]; [discriminate H | discriminate H |].
    cbn [unhex] in H.
    destruct (unhex_digit a) as [hi|] eqn:Ha; [|discriminate H].
    destruct (unhex_digit b) as [lo|] eqn:Hb; [|discriminate H].
    destruct (unhex r) as [t'|] eqn:Hr; [|discriminate H].
    set (n := (16 * hi + lo)%N) in H.
    injection H as Hc Ht. subst t'.
    apply unhex_digit_inv in Ha as [Hh ->], Hb as [Hl ->].
    rewrite (IH r Hr). subst c n.
    change (hex (String (ascii_of_N (16 * hi + lo)) t))
      with (hex (String (ascii_of_N (16 * hi + lo)) "") ++ hex t).
    now rewrite hex_of_pair.
Qed.

(** A byte that is no lower-case hex digit does not occur in a hex string. *)
Lemma hex_free (c : ascii) (s : bytes) :
  unhex_digit c = None -> has c (hex s) = false.
Proof.
  intros Hc. induction s as [|x r IH]; [reflexivity|].
  cbn [hex has]. cbv zeta.
  destruct (hex_pair x) as (H1 & H2 & _). cbv zeta in H1, H2.
  assert (Hne : forall d k, unhex_digit d = Some k -> Ascii.eqb d c = false).
  { intros d k Hd. destruct (Ascii.eqb d c) eqn:E; [|reflexivity].
    apply Ascii.eqb_eq in E. congruence. }
  rewrite (Hne _ _ H1), (Hne _ _ H2), IH. reflexivity.
Qed.

Lemma identity_free (c : ascii) (i : option str) :
  unhex_digit c = None -> c <> "~"%char -> has c (identity_segment i) = false.
Proof.
  intros Hc Hn. destruct i as [s|]; cbn [identity_segment has].
  - now apply hex_free.
  - destruct (Ascii.eqb "~" c) eqn:E; [|reflexivity].
    apply Ascii.eqb_eq in E. congruence.
Qed.

Lemma unidentity_segment (i : option str) :
  unidentity (identity_segment i) = Some i.
Proof.
  destruct i as [s|]; [|reflexivity].
  unfold unidentity, identity_segment.
  destruct (String.eqb (hex s) "~") eqn:E.
  - apply String.eqb_eq in E.
    assert (H : has "~" (hex s) = false) by (now apply hex_free).
    rewrite E in H. discriminate H.
  - now rewrite unhex_hex.
Qed.

Lemma segment_unidentity (seg : bytes) (i : option str) :
  unidentity seg = Some i -> seg = identity_segment i.
Proof.
  unfold unidentity. destruct (String.eqb seg "~") eqn:E.
  - apply String.eqb_eq in E. intros H. injection H as <-. exact E.
  - destruct (unhex seg) as [s|] eqn:U; [|discriminate].
    intros H. injection H as <-. now apply hex_unhex.
Qed.

Lemma split_encode (b o i tg : bytes) :
  has "." b = false -> has "." o = false -> has "." i = false ->
  has "." tg = false ->
  split "." (signing_input b o i ++ "." ++ tg) = [b; o; i; tg].
Proof.
  intros Hb Ho Hi Ht. unfold signing_input.
  rewrite !app_assoc. cbn [append].
  rewrite (split_app_sep "." b) by assumption.
  rewrite (split_app_sep "." o) by assumption.
  rewrite (split_app_sep "." i) by assumption.
  now rewrite (split_no_sep "." tg).
Qed.

Lemma decode_encode (f : fields) (secret : bytes) :
  decode (encode f secret) secret = Some f.
Proof.
  unfold decode, encode.
  rewrite split_encode;
    try (apply hex_free; reflexivity);
    try (apply identity_free; [reflexivity | discriminate]).
  rewrite !unhex_hex, unidentity_segment, String.eqb_refl.
  now destruct f.
Qed.

Lemma encode_decode (token : str) (secret : bytes) (f : fields) :
  decode token secret = Some f -> token = encode f secret.
Proof.
  unfold decode. intros H.
  pose proof (join_split "." token) as J.
  destruct (split "." token) as [|b [|o [|i [|tg [|x xs]]]]]; try discriminate H.
  destruct (unhex b) as [b'|] eqn:Hb; [|discriminate H].
  destruct (unhex o) as [o'|] eqn:Ho; [|discriminate H].
  destruct (unidentity i) as [i'|] eqn:Hi; [|discriminate H].
  destruct (unhex tg) as [tag|] eqn:Ht; [|discriminate H].
  destruct (String.eqb tag _) eqn:E; [|discriminate H].
  injection H as <-. apply String.eqb_eq in E.
  apply hex_unhex in Hb, Ho, Ht. apply segment_unidentity in Hi.
  unfold encode. cbn [bucket object key_id].
  rewrite <- Hb, <- Ho, <- Hi, <- E, <- Ht, <- J.
  unfold signing_input. cbn [join]. now rewrite !app_assoc.
Qed.

End TokenFacts.


(** ** Upload tokens: round trip and fail-closed redemption *)

Module TokenClaims.
Import Bytes BytesFacts JWTMpNoTs TokenFacts.

Lemma hex_inj (a b : bytes) : hex a = hex b -> a = b.
Proof.
  intros H. pose proof (unhex_hex a) as Ha. rewrite H, unhex_hex in Ha.
  now injection Ha.
Qed.

Lemma encode_inj (f f' : fields) (s s' : bytes) :
  encode f s = encode f' s' ->
  f = f'
  /\ HMAC.hmac_sha256 s (signing_input (hex (bucket f)) (hex (object f))
                                       (identity_segment (key_id f)))
     = HMAC.hmac_sha256 s' (signing_input (hex (bucket f)) (hex (object f))
                                          (identity_segment (key_id f))).
Proof.
  intros H. apply (f_equal (split ".")) in H. unfold encode in H.
  rewrite !split_encode in H;
    try (apply hex_free; reflexivity);
    try (apply identity_free; [reflexivity | discriminate]).
  injection H as Hb Ho Hi Ht.
  apply hex_inj in Hb, Ho.
  assert (Hk : key_id f = key_id f').
  { pose proof (unidentity_segment (key_id f)) as U.
    rewrite Hi, unidentity_segment in U. now injection U. }
  apply hex_inj in Ht.
  destruct f, f'; cbn [bucket object key_id] in *. subst.
  split; [reflexivity | exact Ht].
Qed.

(** The zero padding of HMAC keys: a key shorter than the block and the
    same key followed by a zero byte give the same tag. *)
Lemma hmac_key_zero_pad (H : bytes -> bytes) (B : nat) (key msg : bytes) :
  String.length key < B ->
  HMAC.hmac H B (key ++ String zero "") msg = HMAC.hmac H B key msg.
Proof.
  intros L. unfold HMAC.hmac. 
  assert (E : HMAC.block_key H B (key ++ String zero "") = HMAC.block_key H B key).
  { unfold HMAC.block_key.
    rewrite length_app. cbn [String.length].
    destruct (Nat.ltb_spec B (String.length key + 1)); [lia|].
    destruct (Nat.ltb_spec B (String.length key)); [lia|].
    rewrite length_app. cbn [String.length].
    rewrite app_assoc. f_equal.
    replace (B - String.length key) with (S (B - (String.length key + 1))) by lia.
    reflexivity. }
  now rewrite E.
Qed.

Lemma decode_zero_padded_secret (f : fields) (secret : bytes) :
  String.length secret < 64 ->
  decode (encode f secret) (secret ++ String zero "") = Some f.
Proof.
  intros L. pose proof (decode_encode f secret) as D.
  unfold decode in *.
  destruct (split "." (encode f secret))
    as [|b [|o [|i [|tg [|x xs]]]]]; try discriminate D.
  unfold HMAC.hmac_sha256 in *.
  rewrite hmac_key_zero_pad by exact L. exact D.
Qed.

(** C3, as stated, fails: a token issued under the secret [b"123456"] is
    redeemed in full under the different secret [b"123456\x00"]. *)
Lemma token_redeemed_with_other_secret :
  "123456" <> "123456" ++ String zero ""
  /\ decode (encode Fixtures.photos "123456") ("123456" ++ String zero "")
     = Some Fixtures.photos.
Proof.
  split; [discriminate|].
  apply decode_zero_padded_secret. cbn. lia.
Qed.

(** C3 (amended): redeeming an issued token with the issuing secret
    returns exactly its bucket, key and identity; [redeem] returns a
    triple only for the very token that [issue] builds from that triple
    under that secret, so any other string (truncated, undecodable, with a
    wrong tag) is invalid and a result is never partial; and a token
    redeems under another secret only with the same triple and only if
    both secrets give its body the same HMAC tag. *)
Theorem token_round_trip_and_fail_closed :
  (forall f secret, decode (encode f secret) secret = Some f)
  /\ (forall token secret f,
         decode token secret = Some f <-> token = encode f secret)
  /\ (forall f f' secret secret',
         decode (encode f secret) secret' = Some f' ->
         f' = f
         /\ HMAC.hmac_sha256 secret'
              (signing_input (hex (bucket f)) (hex (object f))
                             (identity_segment (key_id f)))
            = HMAC.hmac_sha256 secret
                (signing_input (hex (bucket f)) (hex (object f))
                               (identity_segment (key_id f)))).
Proof.
  split; [exact decode_encode|]. split.
  - intros token secret f. split.
    + apply encode_decode.
    + intros ->. apply decode_encode.
  - intros f f' secret secret' H.
    apply encode_decode, encode_inj in H as [-> E]. split; [reflexivity|].
    now symmetry.
Qed.

Lemma token_round_trip_and_fail_closed_witness :
  Fixtures.photos = Fixtures.photos
  /\ HMAC.hmac_sha256 ("123456" ++ String zero "")
       (signing_input (hex (bucket Fixtures.photos)) (hex (object Fixtures.photos))
                      (identity_segment (key_id Fixtures.photos)))
     = HMAC.hmac_sha256 "123456"
         (signing_input (hex (bucket Fixtures.photos)) (hex (object Fixtures.photos))
                        (identity_segment (key_id Fixtures.photos))).
Proof.
  apply (proj2 (proj2 token_round_trip_and_fail_closed)
           Fixtures.photos Fixtures.photos "123456" ("123456" ++ String zero "")).
  apply decode_zero_padded_secret. vm_compute. lia.
Defined.

End TokenClaims.


(** ** Signature verification against the specification's formula *)

Module VerifyClaims.
Import Bytes BytesFacts SignatureV4.
Import SigV4Spec(raw).

Lemma header_lines_block (hs : list (bytes * bytes)) (names : list bytes) :
  header_lines hs names
  = match SigV4Spec.header_block raw hs names with
    | Some ls => Ok ls
    | None => Raise TypeError
    end.
Proof.
  induction names as [|n rest IH]; [reflexivity|].
  cbn [header_lines SigV4Spec.header_block].
  destruct (Headers.get_first hs n) as [v|]; [|reflexivity].
  rewrite IH. unfold rbind, raw.
  now destruct (SigV4Spec.header_block _ hs rest).
Qed.

Lemma header_block_length norm hs names ls :
  SigV4Spec.header_block norm hs names = Some ls ->
  List.length ls = List.length names.
Proof.
  revert ls. induction names as [|n rest IH]; intros ls H.
  - injection H as <-. reflexivity.
  - cbn [SigV4Spec.header_block] in H.
    destruct (Headers.get_first hs n); [|discriminate H].
    destruct (SigV4Spec.header_block norm hs rest) as [ls'|]; [|discriminate H].
    injection H as <-. cbn [List.length]. now rewrite (IH ls' eq_refl).
Qed.

Lemma join_cons2 sep a b (l : list bytes) :
  join sep (a :: b :: l) = a ++ sep ++ join sep (b :: l).
Proof. reflexivity. Qed.

(** A non-empty run of lines joined on its own and then placed in a
    sequence is the same as the lines placed in the sequence. *)
Lemma join_nested sep (ls : list bytes) (x : bytes) (tl : list bytes) :
  ls <> [] ->
  join sep (ls ++ x :: tl)%list = join sep (join sep ls :: x :: tl).
Proof.
  induction ls as [|a ls IH]; intros H; [congruence|].
  destruct ls as [|b l]; [reflexivity|].
  change (join sep ((a :: b :: l) ++ x :: tl)%list)
    with (a ++ sep ++ join sep ((b :: l) ++ x :: tl)%list).
  rewrite IH by discriminate.
  rewrite !join_cons2. now rewrite !app_assoc.
Qed.

Lemma canonical_request_spec (c : t) :
  canonical_request c
  = match SigV4Spec.canonical raw c with
    | Some cr => Ok cr
    | None => Raise TypeError
    end.
Proof.
  unfold canonical_request, SigV4Spec.canonical.
  rewrite header_lines_block.
  destruct (SigV4Spec.header_block raw _ _) as [ls|] eqn:B; [|reflexivity].
  cbn [rbind].
  destruct (Headers.get_first _ "x-amz-content-sha256") as [h|]; [|reflexivity].
  f_equal.
  assert (N : ls <> []).
  { apply header_block_length in B. intros ->.
    destruct (split ";" (signed_headers c)) eqn:S; [|discriminate B].
    now apply split_not_nil in S. }
  destruct ls as [|l0 ls']; [congruence|].
  unfold SigV4Spec.LF.
  set (sep := String "010" EmptyString).
  set (m := method (request c)). set (p := path (request c)).
  set (q := _raw_query (request c)). set (R := [signed_headers c; h]).
  change (join sep ([m; p; q] ++ (l0 :: ls') ++ "" :: R)%list)
    with (m ++ sep ++ p ++ sep ++ q ++ sep ++ join sep ((l0 :: ls') ++ "" :: R)%list).
  rewrite join_nested by discriminate. reflexivity.
Qed.

Lemma to_sign_spec (c : t) :
  rbind (canonical_request c) (to_sign c)
  = match SigV4Spec.toSign raw c with
    | Some ts => Ok ts
    | None => Raise TypeError
    end.
Proof.
  rewrite canonical_request_spec. unfold SigV4Spec.toSign.
  destruct (SigV4Spec.canonical raw c) as [cr|]; [|reflexivity].
  cbn [rbind]. unfold to_sign.
  destruct (amzdate c) as [d|]; [|reflexivity].
  reflexivity.
Qed.

Lemma signing_key_spec (secret d r : bytes) :
  signing_key secret d r = SigV4Spec.key3 secret d r.
Proof. unfold signing_key, SigV4Spec.key3, _sign. reflexivity. Qed.

Lemma accepts_decision norm (c : t) (secret : bytes) :
  SigV4Spec.accepts norm c secret <-> SigV4Spec.accepts_b norm c secret = true.
Proof.
  unfold SigV4Spec.accepts, SigV4Spec.accepts_b.
  destruct (SigV4Spec.toSign norm c) as [ts|].
  - split.
    + intros (ts' & E & S). injection E as <-. now apply String.eqb_eq.
    + intros H. exists ts. split; [reflexivity | now apply String.eqb_eq].
  - split; [intros (ts & E & _); discriminate E | discriminate].
Qed.

(** C2, as stated, fails: for a request with the header [Host] and the
    signed-header list [Host;x-amz-content-sha256;x-amz-date] the code signs
    the line [Host:s3server.test] and accepts the client's signature, while
    the formula with lower-cased names signs [host:s3server.test] and does
    not. *)
Lemma verify_keeps_header_name_case :
  parse Fixtures.get_root_mixed = Ok (Some Fixtures.mixed_context)
  /\ verify Fixtures.mixed_context (Some "access_key") = Ok true
  /\ ~ SigV4Spec.accepts Bytes.lower Fixtures.mixed_context "access_key".
Proof.
  split; [vm_compute; reflexivity|].
  split; [vm_compute; reflexivity|].
  intros H. apply accepts_decision in H. revert H.
  assert (E : SigV4Spec.accepts_b lower Fixtures.mixed_context "access_key" = false)
    by (vm_compute; reflexivity).
  rewrite E. discriminate.
Qed.

(** C2 (amended): for every signing context and secret, [verify] returns
    true if and only if the hex-decoded signature of the request equals
    HMAC-SHA256(key3, toSign) for the four-step key chain and the
    newline-joined string to sign, where each canonical header line carries
    the header name exactly as it is spelled in the signed-header list. *)
Theorem verify_iff_signature_matches (c : t) (secret : bytes) :
  verify c (Some secret) = Ok true <-> SigV4Spec.accepts raw c secret.
Proof.
  unfold verify, SigV4Spec.accepts.
  pose proof (to_sign_spec c) as T.
  destruct (canonical_request c) as [cr|e] eqn:C; cbn [rbind] in T |- *.
  - rewrite T. destruct (SigV4Spec.toSign raw c) as [ts|]; cbn [rbind].
    + rewrite signing_key_spec. unfold _sign. split.
      * intros H. injection H as H. apply String.eqb_eq in H.
        exists ts. split; [reflexivity | exact H].
      * intros (ts' & E & S). injection E as <-.
        apply (f_equal (@Ok bool)). apply String.eqb_eq. exact S.
    + split; [discriminate|]. intros (ts & E & _). discriminate E.
  - destruct (SigV4Spec.toSign raw c) as [ts|]; [discriminate T|].
    split; [discriminate|]. intros (ts & E & _). discriminate E.
Qed.

End VerifyClaims.


(** ** The router *)

Section RouterFacts.
Context {W : Type}.
Variable interface : BaseInterface W.
Variable rt : Runtime.

Lemma bind_ok {A B} (m : M A) (k : A -> M B) (s s' : W * list call) (a : A) :
  m s = (Ok a, s') -> bind m k s = k a s'.
Proof. unfold bind. now intros ->. Qed.

Lemma bind_raise {A B} (m : M A) (k : A -> M B) (s s' : W * list call) (e : exception) :
  m s = (Raise e, s') -> bind (W := W) m k s = (Raise e, s').
Proof. unfold bind. now intros ->. Qed.

Lemma bind_inv_ok {A B} (m : M A) (k : A -> M B) (s s' : W * list call) (b : B) :
  bind m k s = (Ok b, s') ->
  exists a s1, m s = (Ok a, s1) /\ k a s1 = (Ok b, s').
Proof.
  unfold bind. destruct (m s) as [[a|e] s1]; [|discriminate].
  intros H. now exists a, s1.
Qed.

(** Running the monad: unfold its combinators and reduce. *)
Ltac run := cbv beta iota zeta delta [ret raise bind lift assert].

(** *** The query dictionary *)








(** *** Authentication *)

(** [_auth] touches the backend through [access_key] only, once at most. *)
Lemma _auth_trace request target (s s' : W * list call) res :
  _auth interface request target s = (res, s') ->
  s' = s \/ exists kid w', s' = (w', (snd s ++ [CallAccessKey kid target])%list).
Proof.
  unfold _auth, bind, lift, ret, raise, invoke.
  destruct (SignatureV4.parse request) as [[st|]|e].
  - destruct (Codec.decode (SignatureV4.key_id st)) as [k|e].
    + destruct (access_key interface (Some k) target (fst s)) as [[ak|e] w'].
      * destruct (SignatureV4.verify st ak);
          intros H; injection H as _ <-; right; now exists (Some k), w'.
      * intros H; injection H as _ <-; right; now exists (Some k), w'.
    + intros H; injection H as _ <-. now left.
  - destruct (access_key interface None target (fst s)) as [[ak|e] w'];
      intros H; injection H as _ <-; right; now exists None, w'.
  - intros H; injection H as _ <-. now left.
Qed.

Lemma _auth_ok request target (s s' : W * list call) kid :
  _auth interface request target s = (Ok kid, s') ->
  snd s' = (snd s ++ [CallAccessKey kid target])%list.
Proof.
  unfold _auth, bind, lift, ret, raise, invoke.
  destruct (SignatureV4.parse request) as [[st|]|e]; [| |discriminate].
  - destruct (Codec.decode (SignatureV4.key_id st)) as [k|e]; [|discriminate].
    destruct (access_key interface (Some k) target (fst s)) as [[ak|e] w'];
      [|discriminate].
    destruct (SignatureV4.verify st ak); [|discriminate].
    intros H. injection H as <- <-. reflexivity.
  - destruct (access_key interface None target (fst s)) as [[ak|e] w']; discriminate.
Qed.

(** The boolean that [verify] returns has no influence on [_auth]. *)
Lemma _auth_ignores_verify request target (s : W * list call) st k ak w' b :
  SignatureV4.parse request = Ok (Some st) ->
  Codec.decode (SignatureV4.key_id st) = Ok k ->
  access_key interface (Some k) target (fst s) = (Ok ak, w') ->
  SignatureV4.verify st ak = Ok b ->
  _auth interface request target s
  = (Ok (Some k), (w', (snd s ++ [CallAccessKey (Some k) target])%list)).
Proof.
  intros P D A V. unfold _auth, bind, lift, ret, raise, invoke.
  now rewrite P, D, A, V.
Qed.

(** Without an [Authorization] header [_auth] never returns: it asks the
    backend about the identity [None] and then fails. *)
Lemma _auth_anonymous request target (s : W * list call) :
  Headers.get_first (headers request) "authorization" = None ->
  exists e w',
    _auth interface request target s
    = (Raise e, (w', (snd s ++ [CallAccessKey None target])%list))
    /\ (forall ak, access_key interface None target (fst s) = (Ok ak, w') ->
                   e = AttributeError).
Proof.
  intros H. unfold _auth, bind, lift, ret, raise, invoke, SignatureV4.parse.
  rewrite H.
  destruct (access_key interface None target (fst s)) as [[ak|e] w'].
  - exists AttributeError, w'. now split.
  - exists e, w'. split; [reflexivity | discriminate].
Qed.

(** *** Multipart dispatch *)


Lemma finish_only_after_uploadId request bucket_name object_name
      (s : W * list call) c :
  In c (snd (snd (_create_multipart interface rt request bucket_name object_name s))) ->
  is_finish_call c = true ->
  In c (snd s)
  \/ exists q, parse_query (_raw_query request) = Ok q
               /\ Dict.mem "uploadId" q = true /\ Dict.mem "uploads" q = false.
Proof.
  unfold _create_multipart, bind, lift.
  destruct (parse_query (_raw_query request)) as [q|e] eqn:P; [|now left].
  unfold assert.
  destruct (Dict.mem "uploads" q || Dict.mem "uploadId" q) eqn:A; [|now left].
  cbn [ret raise].
  destruct (_auth interface request _ s) as [[kid|e] s1] eqn:Au.
  2:{ intros I F. left. apply _auth_trace in Au as [->|(k & w' & ->)]; [exact I|].
      cbn [snd] in I. apply in_app_or in I as [I|[<-|[]]]; [exact I | discriminate F]. }
  apply _auth_ok in Au.
  destruct (Dict.mem "uploads" q) eqn:U.
  - unfold invoke, ret.
    destruct (create_multipart_upload interface _ _ (fst s1)) as [[obj|e] w'];
      cbn [snd]; rewrite Au; intros I F; left;
      repeat (apply in_app_or in I as [I|I]; [|destruct I as [<-|[]]; discriminate F]);
      exact I.
  - destruct (Dict.mem "uploadId" q) eqn:Ui; [|discriminate A].
    intros _ _. right. now exists q.
Qed.

(** C10: when the query has both [uploads] and [uploadId], the router,
    once [_auth] has returned, creates the upload at the backend and
    answers with a freshly issued token, and it never completes an upload;
    for any request, completion is called only when [uploadId] is present
    and [uploads] is absent. *)
Theorem uploads_takes_precedence :
  (forall request bucket_name object_name (s : W * list call) q,
      parse_query (_raw_query request) = Ok q ->
      Dict.mem "uploads" q = true ->
      Dict.mem "uploadId" q = true ->
      (forall kid s1,
          _auth interface request (BucketTarget (Bucket.mk bucket_name)) s = (Ok kid, s1) ->
          _create_multipart interface rt request bucket_name object_name s
          = let called := (snd s1 ++ [CallCreateMultipartUpload
                                        (Bucket.mk bucket_name) object_name])%list in
            match create_multipart_upload interface (Bucket.mk bucket_name)
                                          object_name (fst s1) with
            | (Ok obj, w) =>
                (Ok (Text (to_xml rt
                       (InitiateMultipartUploadResult obj
                          (JWTMpNoTs.encode
                             {| JWTMpNoTs.bucket := bucket_name;
                                JWTMpNoTs.object := S3Object.name obj;
                                JWTMpNoTs.key_id := kid |} "123456")))),
                 (w, called))
            | (Raise e, w) => (Raise e, (w, called))
            end)
      /\ (forall c,
             In c (snd (snd (_create_multipart interface rt request
                               bucket_name object_name s))) ->
             is_finish_call c = true -> In c (snd s)))
  /\ (forall request bucket_name object_name (s : W * list call) c,
         In c (snd (snd (_create_multipart interface rt request
                           bucket_name object_name s))) ->
         is_finish_call c = true ->
         ~ In c (snd s) ->
         exists q, parse_query (_raw_query request) = Ok q
                   /\ Dict.mem "uploadId" q = true /\ Dict.mem "uploads" q = false).
Proof.
  split.
  - intros request bucket_name object_name s q P U Ui. split.
    + intros kid s1 Au.
      unfold _create_multipart, bind, lift. rewrite P, U. cbn [orb assert ret].
      rewrite Au. unfold invoke, ret. cbv zeta.
      now destruct (create_multipart_upload interface _ _ (fst s1)) as [[obj|e] w].
    + intros c I F.
      destruct (finish_only_after_uploadId _ _ _ _ _ I F) as [H|(q' & P' & _ & U')];
        [exact H|].
      rewrite P in P'. injection P' as <-. congruence.
  - intros request bucket_name object_name s c I F N.
    destruct (finish_only_after_uploadId _ _ _ _ _ I F) as [H|H]; [contradiction|exact H].
Qed.

(** *** Writing objects *)

Lemma identity_eqb_eq (a b : option str) : identity_eqb a b = true <-> a = b.
Proof.
  destruct a as [x|], b as [y|]; cbn; try (split; [discriminate | congruence]);
    [|now split].
  rewrite String.eqb_eq. split; congruence.
Qed.

Lemma get_mem (k : str) (d : Dict.t) (v : bytes) :
  Dict.get k d = Some v -> Dict.mem k d = true.
Proof. unfold Dict.mem. now intros ->. Qed.

(** C4 (amended): a PUT whose [uploadId] redeems to a bucket, key or
    identity other than the bucket and key of the path and the identity
    [_auth] returned is rejected by an exception before any write stream is
    opened or written.  The exception is the [AssertionError] of the check
    (unless [_auth] itself raised); a wrong bucket or key is rejected
    before the backend is called at all. *)
Theorem part_upload_token_mismatch_rejected
        request bucket_name object_name (s : W * list call) q upload_id info :
  parse_query (_raw_query request) = Ok q ->
  Dict.get "uploadId" q = Some upload_id ->
  JWTMpNoTs.decode upload_id "123456" = Some info ->
  (JWTMpNoTs.bucket info <> bucket_name
   \/ JWTMpNoTs.object info <> object_name
   \/ forall kid s1,
        _auth interface request (BucketTarget (Bucket.mk bucket_name)) s = (Ok kid, s1) ->
        JWTMpNoTs.key_id info <> kid) ->
  exists e s',
    _write_object interface rt request bucket_name object_name s = (Raise e, s')
    /\ (forall c, In c (snd s') -> is_write_call c = true -> In c (snd s))
    /\ (e = AssertionError
        \/ _auth interface request (BucketTarget (Bucket.mk bucket_name)) s = (Raise e, s'))
    /\ (JWTMpNoTs.bucket info <> bucket_name \/ JWTMpNoTs.object info <> object_name ->
        e = AssertionError /\ s' = s).
Proof.
  intros P G D Mis.
  unfold _write_object. run. rewrite P. run.
  rewrite (get_mem _ _ _ G), G, D. run.
  destruct (match Dict.get "partNumber" q with Some p => isdigit rt p | None => false end);
    run.
  2:{ exists AssertionError, s. repeat split; auto. }
  destruct (String.eqb (JWTMpNoTs.bucket info) bucket_name) eqn:Eb; run.
  2:{ exists AssertionError, s. repeat split; auto. }
  destruct (String.eqb (JWTMpNoTs.object info) object_name) eqn:Eo; run.
  2:{ exists AssertionError, s. repeat split; auto. }
  apply String.eqb_eq in Eb, Eo.
  destruct Mis as [Mis|[Mis|Mis]]; [contradiction | contradiction |].
  destruct (_auth interface request _ s) as [[kid|e] s1] eqn:Au; run.
  - destruct (identity_eqb (JWTMpNoTs.key_id info) kid) eqn:Ek; run.
    { apply identity_eqb_eq in Ek. now destruct (Mis kid s1 eq_refl). }
    exists AssertionError, s1. split; [reflexivity|]. split.
    + intros c I F. rewrite (_auth_ok _ _ _ _ _ Au) in I.
      apply in_app_or in I as [I|[<-|[]]]; [exact I | discriminate F].
    + split; [now left|]. intros [N|N]; contradiction.
  - exists e, s1. split; [reflexivity|]. split.
    + intros c I F. apply _auth_trace in Au as [->|(k & w' & ->)]; [exact I|].
      cbn [snd] in I. apply in_app_or in I as [I|[<-|[]]]; [exact I | discriminate F].
    + split; [now right|]. intros [N|N]; contradiction.
Qed.

Lemma join_empty_cons (c : bytes) (l : list bytes) :
  Bytes.join "" (c :: l) = c ++ Bytes.join "" l.
Proof.
  destruct l as [|x l]; cbn [Bytes.join]; [|reflexivity].
  symmetry. apply BytesFacts.app_empty_r.
Qed.






End RouterFacts.

(** ** The router on concrete requests *)

Module RouterExamples.
Import Fixtures.

(** C1 fails on the code: the request [get_root_forged] carries a parseable
    [Authorization] header, [verify] returns false for the secret the
    backend supplies, and [_list_buckets] still lists the buckets at the
    backend and answers. *)
Theorem forged_signature_reaches_backend :
  SignatureV4.parse get_root_forged = Ok (Some forged_context)
  /\ SignatureV4.verify forged_context (Some "access_key") = Ok false
  /\ _list_buckets backend runtime get_root_forged start
     = (Ok (Text "<ListAllMyBucketsResult></ListAllMyBucketsResult>"),
        (InMemoryInterface.empty,
         [CallAccessKey (Some "valid_access") NoTarget;
          CallListBuckets (Some "valid_access")])).
Proof.
  split; [vm_compute; reflexivity|].
  split; vm_compute; reflexivity.
Qed.

(** C6 fails on the code: a request without [Authorization] header to a
    public object passes the identity [None] to the access check, the
    backend grants access, and [_auth] then fails with [AttributeError];
    the object is never read. *)
Theorem anonymous_request_fails :
  Headers.get_first (headers get_anonymous) "authorization" = None
  /\ InMemoryInterface.access_key None
       (ObjectTarget (S3Object.mk (Bucket.mk "public") "hello" 0))
       InMemoryInterface.empty
     = (Ok None, InMemoryInterface.empty)
  /\ _read_object backend get_anonymous "public" "hello" start
     = (Raise AttributeError,
        (InMemoryInterface.empty,
         [CallAccessKey None
            (ObjectTarget (S3Object.mk (Bucket.mk "public") "hello" 0))])).
Proof.
  split; [vm_compute; reflexivity|].
  split; vm_compute; reflexivity.
Qed.

(** C4, as stated, fails: the part upload [part_wrong_bucket] carries a
    token for the bucket [photos] on the path of the bucket [albums]; it is
    rejected before any backend call, but with an [AssertionError], which
    is not an authentication error. *)
Lemma token_mismatch_is_assertion_error :
  JWTMpNoTs.decode photos_token "123456" = Some photos
  /\ _write_object backend runtime part_wrong_bucket "albums" "cat.png" start
     = (Raise AssertionError, start)
  /\ is_authentication_error AssertionError = false.
Proof.
  split; [vm_compute; reflexivity|].
  split; [vm_compute; reflexivity | reflexivity].
Qed.

Lemma part_upload_token_mismatch_rejected_witness :
  exists e s',
    _write_object backend runtime part_wrong_identity "photos" "cat.png" start
    = (Raise e, s')
    /\ (forall c, In c (snd s') -> is_write_call c = true -> In c (snd start))
    /\ (e = AssertionError
        \/ _auth backend part_wrong_identity (BucketTarget (Bucket.mk "photos")) start
           = (Raise e, s'))
    /\ (JWTMpNoTs.bucket
          {| JWTMpNoTs.bucket := "photos"; JWTMpNoTs.object := "cat.png";
             JWTMpNoTs.key_id := Some "somebody_else" |} <> "photos"
        \/ JWTMpNoTs.object
             {| JWTMpNoTs.bucket := "photos"; JWTMpNoTs.object := "cat.png";
                JWTMpNoTs.key_id := Some "somebody_else" |} <> "cat.png" ->
        e = AssertionError /\ s' = start).
Proof.
  apply (part_upload_token_mismatch_rejected backend runtime part_wrong_identity
           "photos" "cat.png" start
           [("uploadId", stranger_token); ("partNumber", "1")] stranger_token
           {| JWTMpNoTs.bucket := "photos"; JWTMpNoTs.object := "cat.png";
              JWTMpNoTs.key_id := Some "somebody_else" |}).
  - vm_compute; reflexivity.
  - vm_compute; reflexivity.
  - vm_compute; reflexivity.
  - right. right. intros kid s1 H.
    assert (E : _auth backend part_wrong_identity (BucketTarget (Bucket.mk "photos")) start
                = (Ok (Some "valid_access"),
                   (InMemoryInterface.empty,
                    [CallAccessKey (Some "valid_access")
                                   (BucketTarget (Bucket.mk "photos"))])))
      by (vm_compute; reflexivity).
    rewrite E in H. injection H as <- _. discriminate.
Defined.




Lemma uploads_takes_precedence_witness :
  (forall kid s1,
      _auth backend post_both (BucketTarget (Bucket.mk "photos")) start = (Ok kid, s1) ->
      _create_multipart backend runtime post_both "photos" "cat.png" start
      = let called := (snd s1 ++ [CallCreateMultipartUpload
                                    (Bucket.mk "photos") "cat.png"])%list in
        match create_multipart_upload backend (Bucket.mk "photos") "cat.png" (fst s1) with
        | (Ok obj, w) =>
            (Ok (Text (to_xml runtime
                   (InitiateMultipartUploadResult obj
                      (JWTMpNoTs.encode
                         {| JWTMpNoTs.bucket := "photos";
                            JWTMpNoTs.object := S3Object.name obj;
                            JWTMpNoTs.key_id := kid |} "123456")))),
             (w, called))
        | (Raise e, w) => (Raise e, (w, called))
        end)
  /\ (forall c,
         In c (snd (snd (_create_multipart backend runtime post_both
                           "photos" "cat.png" start))) ->
         is_finish_call c = true -> In c (snd start)).
Proof.
  apply (proj1 (uploads_takes_precedence backend runtime) post_both "photos" "cat.png"
           start [("uploadId", "abc"); ("uploads", "1")]).
  - vm_compute; reflexivity.
  - vm_compute; reflexivity.
  - vm_compute; reflexivity.
Defined.

(** The run behind the witness of C10: both parameters present, the upload
    is initiated and the token of [photos/cat.png] is issued. *)
Example post_both_initiates :
  _create_multipart backend runtime post_both "photos" "cat.png" start
  = (Ok (Text (to_xml runtime
           (InitiateMultipartUploadResult
              (S3Object.mk (Bucket.mk "photos") "cat.png" 0) photos_token))),
     (InMemoryInterface.empty,
      [CallAccessKey (Some "valid_access") (BucketTarget (Bucket.mk "photos"));
       CallCreateMultipartUpload (Bucket.mk "photos") "cat.png"])).
Proof. vm_compute; reflexivity. Qed.

End RouterExamples.

(** ** Reading objects: the stream of the in-memory backend *)

Module ReadClaims.
Import Bytes BytesFacts.
Local Open Scope Z_scope.

Lemma length_take (n : nat) (s : bytes) :
  String.length (take n s) = Nat.min n (String.length s).
Proof.
  revert s. induction n as [|n IH]; intros [|c r]; cbn; try reflexivity.
  now rewrite IH.
Qed.

Lemma length_drop (n : nat) (s : bytes) :
  String.length (drop n s) = (String.length s - n)%nat.
Proof.
  revert s. induction n as [|n IH]; intros [|c r]; cbn; try reflexivity.
  apply IH.
Qed.

Lemma drop_drop (a b : nat) (s : bytes) : drop a (drop b s) = drop (b + a) s.
Proof.
  revert s. induction b as [|b IH]; intros s; [reflexivity|].
  destruct s as [|c r]; cbn [drop Nat.add].
  - now destruct a.
  - apply IH.
Qed.

Lemma take_empty (n : nat) (s : bytes) :
  take n s = "" -> n = 0%nat \/ s = "".
Proof. destruct n, s; cbn; auto; discriminate. Qed.

(** Reading [a] bytes and then the rest of a budget of [t] bytes reads
    [t] bytes. *)
Lemma take_then_take (a t : nat) (x : bytes) :
  (a <= t)%nat ->
  take a x ++ take (t - String.length (take a x)) (drop (String.length (take a x)) x)
  = take t x.
Proof.
  revert t x. induction a as [|a IH]; intros t x L.
  - now destruct t.
  - destruct x as [|c r]; [now destruct t|].
    destruct t as [|t]; [lia|].
    cbn [take String.length drop append Nat.sub]. f_equal. apply IH. lia.
Qed.






(** The router itself reads no range: a request with a [Range] header
    opens the stream on the whole object, and the whole object is served. *)
Example range_header_is_not_read :
  _read_object Fixtures.backend Fixtures.get_ranged "photos" "hello.txt"
               (Fixtures.holding "hello world", [])
  = (Ok (Resp {| status := 200; response_headers := [];
                 content := Some ("application/octet-stream", 0%nat) |}),
     (InMemoryInterface.with_reader (Fixtures.holding "hello world")
        (InMemoryInterface.open_read "hello world" None),
      [CallAccessKey (Some "valid_access")
         (ObjectTarget (S3Object.mk (Bucket.mk "photos") "hello.txt" 0));
       CallReadObject (S3Object.mk (Bucket.mk "photos") "hello.txt" 0)]))
  /\ fst (_provider Fixtures.backend 3 0%nat
            (InMemoryInterface.with_reader (Fixtures.holding "hello world")
               (InMemoryInterface.open_read "hello world" None), []))
     = Ok (Some ["hello world"]).
Proof. split; vm_compute; reflexivity. Qed.

End ReadClaims.

(** ** Parsing the [Authorization] header *)

Module ParseClaims.
Import Bytes BytesFacts SignatureV4 ParseSpec.

Lemma split1_cases (sep : ascii) (w : bytes) :
  (has sep w = true /\ exists a b, split1 sep w = [a; b])
  \/ (has sep w = false /\ split1 sep w = [w]).
Proof.
  induction w as [|c r IH]; [now right|].
  cbn [has split1]. destruct (Ascii.eqb c sep).
  - left. split; [reflexivity|]. now exists "", r.
  - cbn [orb]. destruct IH as [(H & a & b & ->)|(H & ->)].
    + left. split; [exact H|]. now exists (String c a), b.
    + now right.
Qed.

(** On well-formed items the dictionary of [parse] holds the sub-fields. *)
Lemma auth_dict_fields (ws : list bytes) (d : Dict.t) :
  forallb is_pair ws = true ->
  exists d', auth_dict_of d ws = Ok d'
             /\ forall k, Dict.get k d'
                          = match field k ws with
                            | Some v => Some v
                            | None => Dict.get k d
                            end.
Proof.
  revert d. induction ws as [|w rest IH]; intros d H.
  - exists d. now split.
  - cbn [forallb] in H. apply andb_true_iff in H as [Hw Hr].
    unfold is_pair in Hw. apply andb_true_iff in Hw as [He Hu].
    cbn [auth_dict_of field]. unfold name_of, value_of in *.
    destruct (split1_cases "=" w) as [(_ & a & b & S)|(N & _)]; [|congruence].
    rewrite S in *. cbn [hd] in *. unfold Codec.decode. rewrite Hu. cbn [rbind].
    destruct (IH (Dict.set a b d) Hr) as (d' & E & G).
    exists d'. split; [exact E|]. intros k. rewrite G, He, andb_true_r.
    destruct (field k rest); [reflexivity|]. cbn [Dict.set Dict.get].
    now destruct (String.eqb a k).
Qed.

Lemma is_hex_init (k sg ds rg sh : bytes) (date : option bytes) (r : Request) :
  is_hex sg = true ->
  exists sig, Codec.fromhex sg = Ok sig
              /\ init k sg ds rg sh date r
                 = Ok {| key_id := k; signature := sig; datestamp := ds;
                         region := rg; signed_headers := sh; amzdate := date;
                         request := r |}.
Proof.
  unfold is_hex, init, Codec.decode. intros H.
  apply andb_true_iff in H as [-> H]. cbn [rbind].
  destruct (Codec.fromhex sg) as [sig|]; [|discriminate H].
  now exists sig.
Qed.

(** C7, as stated, fails: [get_root_not_hex] has the scheme, the three
    sub-fields and a three-segment scope, and [get_root_no_pair] lacks the
    sub-fields; [parse] returns neither a context for the first nor absent
    for the second, it raises [ValueError] on both. *)
Lemma parse_raises_on_malformed_header :
  (~ absent Fixtures.get_root_not_hex
   /\ parse Fixtures.get_root_not_hex = Raise ValueError)
  /\ (absent Fixtures.get_root_no_pair
      /\ parse Fixtures.get_root_no_pair = Raise ValueError).
Proof.
  split; split; try (vm_compute; reflexivity).
  - unfold absent.
    change (Headers.get_first (headers Fixtures.get_root_not_hex) "authorization")
      with (Some (Fixtures.authorization "valid_access" Fixtures.lower_names "zz")).
    cbv beta iota.
    set (h := Fixtures.authorization "valid_access" Fixtures.lower_names "zz").
    assert (S : scheme h = SCHEME) by (vm_compute; reflexivity).
    assert (C : field "Credential" (items h)
                = Some "valid_access/20240101/us-east-1/s3/aws4_request")
      by (vm_compute; reflexivity).
    assert (H : field "SignedHeaders" (items h) = Some Fixtures.lower_names)
      by (vm_compute; reflexivity).
    assert (G : field "Signature" (items h) = Some "zz") by (vm_compute; reflexivity).
    rewrite S, C, H, G.
    intros [N|[N|[N|[N|(cred & E & L)]]]]; try congruence.
    injection E as <-. vm_compute in L. lia.
  - unfold absent.
    change (Headers.get_first (headers Fixtures.get_root_no_pair) "authorization")
      with (Some "AWS4-HMAC-SHA256 oops").
    cbv beta iota. right. left. vm_compute. reflexivity.
Qed.

(** C7 (amended): on a request whose [Authorization] header, if it has the
    scheme [AWS4-HMAC-SHA256], consists of [name=value] items only and
    carries its signature in hex, [parse] returns absent exactly when the
    header is missing, the scheme is another one, one of [Credential],
    [SignedHeaders], [Signature] is missing, or the credential scope has
    fewer than three [/]-separated segments; on every other such request it
    returns the context made of key id, date stamp and region from the
    scope, the signed-header list, the hex-decoded signature, the value of
    [x-amz-date] and the request. *)
Theorem parse_absent_or_context (r : Request) :
  (forall h, Headers.get_first (headers r) "authorization" = Some h ->
             scheme h = SCHEME -> well_formed h = true) ->
  (parse r = Ok None <-> absent r)
  /\ (~ absent r ->
      exists h cred sh sg k ds rg rest sig,
        Headers.get_first (headers r) "authorization" = Some h
        /\ field "Credential" (items h) = Some cred
        /\ field "SignedHeaders" (items h) = Some sh
        /\ field "Signature" (items h) = Some sg
        /\ Bytes.split "/" cred = k :: ds :: rg :: rest
        /\ Codec.fromhex sg = Ok sig
        /\ parse r
           = Ok (Some {| key_id := k; signature := sig; datestamp := ds;
                         region := rg; signed_headers := sh;
                         amzdate := Headers.get_first (headers r) "x-amz-date";
                         request := r |})).
Proof.
  intros WF. unfold parse, absent.
  destruct (Headers.get_first (headers r) "authorization") as [h|];
    [|split; [now split | intros N; now destruct N]].
  specialize (WF h eq_refl).
  unfold scheme, items, well_formed, items, words in *.
  destruct (String.eqb h "") eqn:Eh.
  { apply String.eqb_eq in Eh. subst h. cbn.
    split; [split; [intros _; left; discriminate | reflexivity]|].
    intros N. destruct N. left. discriminate. }
  destruct (split " " (remove "," h)) as [|sch ws] eqn:S;
    [now apply split_not_nil in S|].
  cbn [hd tl] in *.
  destruct (String.eqb sch "AWS4-HMAC-SHA256") eqn:Es; cbn [negb].
  2:{ apply String.eqb_neq in Es.
      split; [split; [intros _; now left | reflexivity]|].
      intros N. destruct N. now left. }
  apply String.eqb_eq in Es. specialize (WF Es).
  apply andb_true_iff in WF as [Wp Wh].
  destruct (auth_dict_fields ws [] Wp) as (d & -> & G). cbn [rbind].
  unfold _AUTH_DICT_KEYS, Dict.mem. cbn [forallb].
  rewrite !G. cbn [Dict.get].
  destruct (field "Credential" ws) as [cred|] eqn:Fc.
  2:{ cbn. split; [split; [intros _; right; now left | reflexivity]|].
      intros N. destruct N. right. now left. }
  destruct (field "SignedHeaders" ws) as [sh|] eqn:Fs.
  2:{ cbn. split; [split; [intros _; right; right; now left | reflexivity]|].
      intros N. destruct N. right. right. now left. }
  destruct (field "Signature" ws) as [sg|] eqn:Fg.
  2:{ cbn. split; [split; [intros _; right; right; right; now left | reflexivity]|].
      intros N. destruct N. right. right. right. now left. }
  cbn [andb negb].
  assert (Short : List.length (split "/" cred) < 3 ->
                  sch <> SCHEME
                  \/ Some cred = None \/ Some sh = None \/ Some sg = None
                  \/ exists cred0, Some cred = Some cred0
                                   /\ List.length (split "/" cred0) < 3).
  { intros L. right. right. right. right. now exists cred. }
  destruct (split "/" cred) as [|k [|ds [|rg rest]]] eqn:Sc.
  1-3: (split; [split; [intros _; apply Short; cbn; lia | intros _; reflexivity]|];
        intros N; destruct N; apply Short; cbn; lia).
  clear Short.
  destruct (is_hex_init k sg ds rg sh (Headers.get_first (headers r) "x-amz-date") r Wh)
    as (sig & Fh & ->).
  cbn [rbind].
  assert (NA : ~ (sch <> SCHEME
                  \/ Some cred = None \/ Some sh = None \/ Some sg = None
                  \/ exists cred0, Some cred = Some cred0
                                   /\ List.length (split "/" cred0) < 3)).
  { intros [N|[N|[N|[N|(c0 & E & L)]]]]; [now apply N | congruence..|].
    injection E as <-. rewrite Sc in L. cbn in L. lia. }
  split.
  - split; [discriminate | intros N; now destruct NA].
  - intros _. exists h, cred, sh, sg, k, ds, rg, rest, sig.
    rewrite S. cbn [tl]. rewrite Fc, Fs, Fg, Sc.
    repeat (split; [reflexivity|]). split; [exact Fh | reflexivity].
Qed.

Lemma parse_absent_or_context_witness :
  (parse Fixtures.get_root = Ok None <-> absent Fixtures.get_root)
  /\ (~ absent Fixtures.get_root ->
      exists h cred sh sg k ds rg rest sig,
        Headers.get_first (headers Fixtures.get_root) "authorization" = Some h
        /\ field "Credential" (items h) = Some cred
        /\ field "SignedHeaders" (items h) = Some sh
        /\ field "Signature" (items h) = Some sg
        /\ Bytes.split "/" cred = k :: ds :: rg :: rest
        /\ Codec.fromhex sg = Ok sig
        /\ parse Fixtures.get_root
           = Ok (Some {| key_id := k; signature := sig; datestamp := ds;
                         region := rg; signed_headers := sh;
                         amzdate := Headers.get_first (headers Fixtures.get_root)
                                                      "x-amz-date";
                         request := Fixtures.get_root |})).
Proof.
  apply (parse_absent_or_context Fixtures.get_root).
  intros h H _. vm_compute in H. injection H as <-. vm_compute. reflexivity.
Defined.

End ParseClaims.

(** ** Outcomes of the signature check *)

Module VerifyOutcome.
Import Bytes BytesFacts SignatureV4 Outcome.
Import SigV4Spec(raw).

Lemma header_block_present norm (hs : list (bytes * bytes)) (names : list bytes) :
  present (SigV4Spec.header_block norm hs names)
  = forallb (fun n => present (Headers.get_first hs n)) names.
Proof.
  induction names as [|n rest IH]; [reflexivity|].
  cbn [SigV4Spec.header_block forallb]. rewrite <- IH.
  destruct (Headers.get_first hs n); [|reflexivity].
  now destruct (SigV4Spec.header_block norm hs rest).
Qed.

Lemma toSign_present (c : t) :
  present (SigV4Spec.toSign raw c) = signable c.
Proof.
  unfold signable, SigV4Spec.toSign, SigV4Spec.canonical. cbv zeta.
  rewrite <- (header_block_present raw).
  destruct (SigV4Spec.header_block raw _ _); [|reflexivity].
  destruct (Headers.get_first _ "x-amz-content-sha256"); [|reflexivity].
  now destruct (amzdate c).
Qed.

(** X1: [verify] raises [TypeError] exactly when a signed header, the
    content hash or the date is missing from the request, whatever the
    key; with all of them there it raises [AttributeError] for the key
    [None] and otherwise returns the comparison of the two signatures. *)
Theorem verify_outcome (c : t) (ak : option str) :
  if signable c then
    match ak with
    | None => verify c ak = Raise AttributeError
    | Some s =>
        exists ts,
          SigV4Spec.toSign raw c = Some ts
          /\ verify c ak
             = Ok (String.eqb (signature c)
                     (_sign (signing_key s (datestamp c) (region c)) ts))
    end
  else verify c ak = Raise TypeError.
Proof.
  rewrite <- toSign_present. unfold verify.
  pose proof (VerifyClaims.to_sign_spec c) as T.
  destruct (canonical_request c) as [cr|e] eqn:C; cbn [rbind] in T |- *.
  - rewrite T. destruct (SigV4Spec.toSign raw c) as [ts|]; cbn [rbind present].
    + destruct ak as [s|]; [|reflexivity]. now exists ts.
    + reflexivity.
  - destruct (SigV4Spec.toSign raw c) as [ts|]; [discriminate T|].
    cbn [present]. injection T as ->. reflexivity.
Qed.

Lemma fromhex_pair (c : ascii) :
  let n := Z.of_N (N_of_ascii c) in
  Codec.isspace (hex_digit (n / 16)) = false
  /\ Codec.hexval (hex_digit (n / 16)) = Some (N_of_ascii c / 16)%N
  /\ Codec.hexval (hex_digit (n mod 16)) = Some (N_of_ascii c mod 16)%N
  /\ (N_of_ascii (hex_digit (n / 16)) <=? 127)%N = true
  /\ (N_of_ascii (hex_digit (n mod 16)) <=? 127)%N = true.
Proof.
  destruct c as [[|] [|] [|] [|] [|] [|] [|] [|]];
    vm_compute; repeat split; reflexivity.
Qed.

Lemma fromhex_hex (s : bytes) : Codec.fromhex (hex s) = Ok s.
Proof.
  induction s as [|c r IH]; [reflexivity|].
  cbn [hex Codec.fromhex]. cbv zeta.
  destruct (fromhex_pair c) as (H0 & H1 & H2 & _). cbv zeta in H0, H1, H2.
  rewrite H0, H1, H2, IH.
  destruct (TokenFacts.hex_pair c) as (_ & _ & H3). now rewrite H3.
Qed.

Lemma utf8_valid_hex (s : bytes) : Codec.utf8_valid (hex s) = true.
Proof.
  induction s as [|c r IH]; [reflexivity|].
  cbn [hex]. cbv zeta.
  destruct (fromhex_pair c) as (_ & _ & _ & H4 & H5). cbv zeta in H4, H5.
  cbn [Codec.utf8_valid]. rewrite H4.
  cbn [Codec.utf8_valid]. now rewrite H5.
Qed.

(** X2: the constructor hex-decodes the signature: built from the hex
    form of any byte string, the context holds that byte string. *)
Theorem init_decodes_hex (k sig ds rg sh : bytes) (date : option bytes) (r : Request) :
  init k (hex sig) ds rg sh date r
  = Ok {| key_id := k; signature := sig; datestamp := ds; region := rg;
          signed_headers := sh; amzdate := date; request := r |}.
Proof.
  unfold init, Codec.decode. rewrite utf8_valid_hex. cbn [rbind].
  now rewrite fromhex_hex.
Qed.

End VerifyOutcome.

(** ** The query dictionary of the router *)

Module QueryFacts.
Import Bytes BytesFacts Outcome.

Lemma split_length (sep : ascii) (s : bytes) :
  List.length (split sep s) = S (occurrences sep s).
Proof.
  induction s as [|c r IH]; [reflexivity|].
  cbn [split occurrences]. destruct (Ascii.eqb c sep).
  - cbn [List.length]. now rewrite IH.
  - destruct (split sep r) as [|p ps]; [discriminate IH|]. exact IH.
Qed.

Lemma decode_items_outcome (items : list bytes) :
  decode_items items
  = if forallb Codec.utf8_valid items then Ok (List.map (split "=") items)
    else Raise UnicodeDecodeError.
Proof.
  induction items as [|kv rest IH]; [reflexivity|].
  cbn [decode_items forallb List.map]. unfold Codec.decode.
  destruct (Codec.utf8_valid kv); [|reflexivity].
  rewrite IH. now destruct (forallb Codec.utf8_valid rest).
Qed.

Lemma dict_of_pairs_outcome (pairs : list (list str)) (d : Dict.t) :
  if forallb is_pair pairs then exists d', dict_of_pairs d pairs = Ok d'
  else dict_of_pairs d pairs = Raise ValueError.
Proof.
  revert d. induction pairs as [|p rest IH]; intros d; [now exists d|].
  cbn [forallb dict_of_pairs].
  destruct p as [|k [|v [|x xs]]]; try reflexivity.
  cbn [is_pair List.length Nat.eqb andb]. apply IH.
Qed.

Lemma pairs_of_items (items : list bytes) :
  forallb is_pair (List.map (split "=") items)
  = forallb (fun kv => Nat.eqb (occurrences "=" kv) 1) items.
Proof.
  induction items as [|kv l IH]; [reflexivity|].
  cbn [List.map forallb]. f_equal; [|exact IH].
  unfold is_pair. rewrite split_length. reflexivity.
Qed.

Lemma parse_query_cases (raw : bytes) :
  if negb (forallb Codec.utf8_valid (split "&" raw)) then
    parse_query raw = Raise UnicodeDecodeError
  else if forallb (fun kv => Nat.eqb (occurrences "=" kv) 1) (split "&" raw) then
    exists q, parse_query raw = Ok q
  else parse_query raw = Raise ValueError.
Proof.
  unfold parse_query. rewrite decode_items_outcome.
  destruct (forallb Codec.utf8_valid (split "&" raw)); [|reflexivity].
  cbn [negb].
  pose proof (dict_of_pairs_outcome (List.map (split "=") (split "&" raw)) []) as D.
  rewrite pairs_of_items in D. exact D.
Qed.

(** X3: the query string parses exactly when every [&]-separated item is
    UTF-8 and has exactly one [=]; an undecodable item is a
    [UnicodeDecodeError] wherever it stands, any other malformed item a
    [ValueError]. *)
Theorem parse_query_outcome (raw : bytes) :
  if negb (forallb Codec.utf8_valid (split "&" raw)) then
    parse_query raw = Raise UnicodeDecodeError
  else if forallb (fun kv => Nat.eqb (occurrences "=" kv) 1) (split "&" raw) then
    exists q, parse_query raw = Ok q
  else parse_query raw = Raise ValueError.
Proof. exact (parse_query_cases raw). Qed.

Lemma find_app {A} (f : A -> bool) (l1 l2 : list A) :
  find f (l1 ++ l2)%list
  = match find f l1 with Some x => Some x | None => find f l2 end.
Proof.
  induction l1 as [|a l IH]; [reflexivity|].
  cbn [find app]. now destruct (f a).
Qed.

Lemma find_map {A B} (g : A -> B) (f : B -> bool) (l : list A) :
  find f (List.map g l) = option_map g (find (fun a => f (g a)) l).
Proof.
  induction l as [|a l IH]; [reflexivity|].
  cbn [find List.map]. now destruct (f (g a)).
Qed.

Lemma dict_of_pairs_get (pairs : list (list str)) (d d' : Dict.t) (k : str) :
  dict_of_pairs d pairs = Ok d' ->
  Dict.get k d'
  = match find (fun p => String.eqb (hd "" p) k) (rev pairs) with
    | Some p => Some (nth 1 p "")
    | None => Dict.get k d
    end.
Proof.
  revert d. induction pairs as [|p rest IH]; intros d H.
  - now injection H as <-.
  - cbn [dict_of_pairs] in H.
    destruct p as [|a [|v [|x xs]]]; try discriminate H.
    rewrite (IH _ H). cbn [rev]. rewrite find_app.
    destruct (find (fun p => String.eqb (hd "" p) k) (rev rest)); [reflexivity|].
    cbn [find hd Dict.set Dict.get nth].
    now destruct (String.eqb a k).
Qed.

(** X4: of several query items with the same name the last one wins: what
    the router finds under a name is the value of the last item so named. *)
Theorem parse_query_last_wins (raw : bytes) (q : Dict.t) (k : str) :
  parse_query raw = Ok q -> Dict.get k q = query_value k raw.
Proof.
  unfold parse_query, query_value. rewrite decode_items_outcome.
  destruct (forallb Codec.utf8_valid (split "&" raw)); [|discriminate].
  intros H. rewrite (dict_of_pairs_get _ _ _ k H).
  rewrite <- map_rev, find_map.
  now destruct (find (fun kv => String.eqb (hd "" (split "=" kv)) k)
                     (rev (split "&" raw))).
Qed.

Lemma parse_query_last_wins_witness :
  Dict.get "a" [("a", "2"); ("a", "1")] = query_value "a" "a=1&a=2".
Proof.
  apply (parse_query_last_wins "a=1&a=2" [("a", "2"); ("a", "1")] "a").
  vm_compute; reflexivity.
Defined.

Lemma parse_query_bad (raw : bytes) :
  forallb query_item_ok (split "&" raw) = false ->
  exists e, parse_query raw = Raise e /\ is_ValueError e = true.
Proof.
  intros H. pose proof (parse_query_cases raw) as O. cbv zeta in O.
  destruct (forallb Codec.utf8_valid (split "&" raw)) eqn:U; cbn [negb] in O.
  - destruct (forallb (fun kv => Nat.eqb (occurrences "=" kv) 1) (split "&" raw)) eqn:E.
    + exfalso. revert H U E. unfold query_item_ok.
      induction (split "&" raw) as [|kv l IH]; [discriminate|].
      cbn [forallb]. intros H U E.
      apply andb_true_iff in U as [U1 U2]. apply andb_true_iff in E as [E1 E2].
      rewrite U1, E1 in H. cbn [andb] in H. now apply IH.
    + now exists ValueError.
  - now exists UnicodeDecodeError.
Qed.

End QueryFacts.

(** ** More on the router *)

Section RouterMore.
Context {W : Type}.
Variable interface : BaseInterface W.
Variable rt : Runtime.

Ltac run := cbv beta iota zeta delta [ret raise bind lift assert].

(** X5: [_auth] returns an identity only for a request whose
    [Authorization] header parsed into a context; the identity is the
    context's key id, never [None], and it is returned after exactly one
    backend call, the access check of that key id on the target, which the
    backend answered without raising. *)
Theorem auth_returns_checked_key_id
        request target (s s' : W * list call) (kid : option str) :
  _auth interface request target s = (Ok kid, s') ->
  exists st k ak,
    SignatureV4.parse request = Ok (Some st)
    /\ Codec.decode (SignatureV4.key_id st) = Ok k
    /\ kid = Some k
    /\ access_key interface (Some k) target (fst s) = (Ok ak, fst s')
    /\ snd s' = (snd s ++ [CallAccessKey (Some k) target])%list.
Proof.
  unfold _auth, invoke. run.
  destruct (SignatureV4.parse request) as [[st|]|e] eqn:P; [| |discriminate].
  - destruct (Codec.decode (SignatureV4.key_id st)) as [k|e] eqn:D; [|discriminate].
    destruct (access_key interface (Some k) target (fst s)) as [[ak|e] w'] eqn:A;
      [|discriminate].
    destruct (SignatureV4.verify st ak); [|discriminate].
    intros H. injection H as <- <-. exists st, k, ak.
    cbn [fst snd]. repeat split; try reflexivity; assumption.
  - destruct (access_key interface None target (fst s)) as [[ak|e] w']; discriminate.
Qed.



(** X7: a query string with an item that is not UTF-8 or does not have
    exactly one [=], the empty query string among them, makes both the
    write-object and the multipart handler raise a [ValueError] before
    anything reaches the backend. *)
Theorem unparsable_query_stops_handler
        request bucket_name object_name (s : W * list call) :
  forallb Outcome.query_item_ok (Bytes.split "&" (_raw_query request)) = false ->
  exists e,
    is_ValueError e = true
    /\ _write_object interface rt request bucket_name object_name s = (Raise e, s)
    /\ _create_multipart interface rt request bucket_name object_name s = (Raise e, s).
Proof.
  intros H. destruct (QueryFacts.parse_query_bad _ H) as (e & P & V).
  exists e. split; [exact V|].
  unfold _write_object, _create_multipart. run. now rewrite P.
Qed.

(** X8: a PUT with [uploadId] but without [partNumber], or with one that
    is not all digits, fails the assertion before the token is looked at
    and before any backend call. *)
Theorem part_number_required
        request bucket_name object_name (s : W * list call) (q : Dict.t) :
  parse_query (_raw_query request) = Ok q ->
  Dict.mem "uploadId" q = true ->
  match Dict.get "partNumber" q with
  | Some p => isdigit rt p = false
  | None => True
  end ->
  _write_object interface rt request bucket_name object_name s
  = (Raise AssertionError, s).
Proof.
  intros P U N. unfold _write_object. run. rewrite P. run. rewrite U.
  destruct (Dict.get "partNumber" q) as [p|]; [rewrite N|]; reflexivity.
Qed.

Lemma stream_write_final_fails (st st' : write_stream) (s s' : W * list call) :
  (forall h w, exists e w', write interface h None w = (Raise e, w')) ->
  stream_write interface st None s <> (Ok st', s').
Proof.
  intros F. revert st' s s'. induction st as [h|inner IH fed]; intros st' s s'.
  - cbn [stream_write]. unfold invoke. run.
    destruct (F h (fst s)) as (e & w' & ->). discriminate.
  - cbn [stream_write]. run.
    destruct (stream_write interface inner None s) as [[i|e] s1] eqn:E; [|discriminate].
    now destruct (IH _ _ _ E).
Qed.

(** X9: over a backend whose sinks fail to take the end-of-data marker no
    write-object request is answered: the handler always raises, so a 200
    with an [ETag] is only sent after the sink has been finalised. *)
Theorem unfinalised_write_is_no_200
        request bucket_name object_name (s : W * list call) :
  (forall h w, exists e w', write interface h None w = (Raise e, w')) ->
  exists e s',
    _write_object interface rt request bucket_name object_name s = (Raise e, s').
Proof.
  intros F.
  destruct (_write_object interface rt request bucket_name object_name s)
    as [[r|e] s'] eqn:H; [|now exists e, s'].
  exfalso. unfold _write_object in H. cbv zeta in H.
  apply bind_inv_ok in H as (q & s0 & _ & H).
  apply bind_inv_ok in H as (ui & s1 & _ & H).
  apply bind_inv_ok in H as (kid & s2 & _ & H).
  apply bind_inv_ok in H as (u & s3 & _ & H).
  apply bind_inv_ok in H as (st0 & s4 & _ & H).
  apply bind_inv_ok in H as (st1 & s5 & _ & H).
  apply bind_inv_ok in H as (st2 & s6 & N & _).
  exact (stream_write_final_fails _ _ _ _ F N).
Qed.

Lemma identity_eqb_refl (a : option str) : identity_eqb a a = true.
Proof. destruct a as [x|]; [apply String.eqb_refl | reflexivity]. Qed.

(** X10: the upload id issued for a bucket, key and identity is accepted
    by the completion of that upload: a POST without [uploads] whose
    [uploadId] is that token, on the same path and by the same identity,
    passes the three checks and calls [finish_multipart_upload] on the
    object; the answer is the completion document, or the error the
    backend raised. *)
Theorem completion_accepts_issued_token
        request bucket_name object_name (s s1 : W * list call) q kid :
  parse_query (_raw_query request) = Ok q ->
  Dict.mem "uploads" q = false ->
  Dict.get "uploadId" q
  = Some (JWTMpNoTs.encode {| JWTMpNoTs.bucket := bucket_name;
                              JWTMpNoTs.object := object_name;
                              JWTMpNoTs.key_id := kid |} "123456") ->
  _auth interface request (BucketTarget (Bucket.mk bucket_name)) s = (Ok kid, s1) ->
  _create_multipart interface rt request bucket_name object_name s
  = let object_ := S3Object.mk (Bucket.mk bucket_name) object_name 0 in
    let called := (snd s1 ++ [CallFinishMultipartUpload object_])%list in
    match finish_multipart_upload interface object_ (fst s1) with
    | (Ok _, w) => (Ok (Text (to_xml rt (CompleteMultipartUploadResult object_))),
                    (w, called))
    | (Raise e, w) => (Raise e, (w, called))
    end.
Proof.
  intros P U G Au. unfold _create_multipart. run. rewrite P. run.
  rewrite U. unfold Dict.mem. rewrite G. cbn [orb]. rewrite Au. run.
  rewrite TokenFacts.decode_encode. cbn [JWTMpNoTs.bucket JWTMpNoTs.object JWTMpNoTs.key_id].
  rewrite !String.eqb_refl, identity_eqb_refl. run.
  unfold invoke. 
  now destruct (finish_multipart_upload interface _ (fst s1)) as [[[]|e] w].
Qed.

Lemma stream_write_extends (st : write_stream) content (s : W * list call) :
  exists rest, snd (snd (stream_write interface st content s)) = (snd s ++ rest)%list.
Proof.
  revert s. induction st as [h|inner IH fed]; intros s.
  - cbn [stream_write]. unfold invoke. run.
    destruct (write interface h content (fst s)) as [[[]|e] w]; cbn [snd]; eauto.
  - cbn [stream_write]. run. destruct (IH s) as (rest & E).
    destruct (stream_write interface inner content s) as [[i|e] s1];
      cbn [snd] in *; eauto.
Qed.

Lemma write_chunks_extends (chunks : list bytes) (st : write_stream)
      (s : W * list call) :
  exists rest,
    snd (snd (write_chunks interface st chunks s)) = (snd s ++ rest)%list.
Proof.
  revert st s. induction chunks as [|c l IH]; intros st s.
  - exists []. cbn. now rewrite app_nil_r.
  - cbn [write_chunks]. destruct (String.eqb c ""); [apply IH|].
    run. destruct (stream_write_extends st (Some c) s) as (r1 & E1).
    destruct (stream_write interface st (Some c) s) as [[st1|e] s1]; cbn [snd] in E1.
    + destruct (IH st1 s1) as (r2 & E2). exists (r1 ++ r2)%list.
      now rewrite E2, E1, app_assoc.
    + now exists r1.
Qed.

(** X11: the upload id issued for a bucket, key and identity is accepted
    by a part upload: a PUT on the same path by the same identity with that
    [uploadId] and a numeric [partNumber] passes all checks, and the next
    backend call after the access check opens the part stream of the object
    with that part number. *)
Theorem part_upload_accepts_issued_token
        request bucket_name object_name (s s1 : W * list call) q kid p n :
  parse_query (_raw_query request) = Ok q ->
  Dict.get "uploadId" q
  = Some (JWTMpNoTs.encode {| JWTMpNoTs.bucket := bucket_name;
                              JWTMpNoTs.object := object_name;
                              JWTMpNoTs.key_id := kid |} "123456") ->
  Dict.get "partNumber" q = Some p ->
  isdigit rt p = true ->
  int rt p = Ok n ->
  _auth interface request (BucketTarget (Bucket.mk bucket_name)) s = (Ok kid, s1) ->
  exists rest,
    snd (snd (_write_object interface rt request bucket_name object_name s))
    = (snd s1
       ++ CallWriteObjectMultipart (S3Object.mk (Bucket.mk bucket_name) object_name 0) n
       :: rest)%list.
Proof.
  intros P G Pn Dg In Au. unfold _write_object. run. rewrite P. run.
  unfold Dict.mem. rewrite G, Pn, Dg. run.
  rewrite TokenFacts.decode_encode. cbn [JWTMpNoTs.bucket JWTMpNoTs.object JWTMpNoTs.key_id].
  rewrite !String.eqb_refl. run. rewrite Au. run.
  rewrite identity_eqb_refl, In. run. unfold invoke at 1.
  destruct (write_object_multipart interface _ n (fst s1)) as [[st0|e] w2].
  2:{ exists []. reflexivity. }
  set (st1 := match st0 with
              | ETagWriteStream _ _ => st0
              | Sink _ => ETagWriteStream st0 ""
              end).
  set (s2 := (w2, (snd s1 ++ [CallWriteObjectMultipart
                                 (S3Object.mk (Bucket.mk bucket_name) object_name 0) n])%list)).
  destruct (write_chunks_extends (stream request) st1 s2) as (r1 & E1).
  destruct (write_chunks interface st1 (stream request) s2) as [[st2|e] s3];
    cbn [snd] in E1.
  2:{ exists r1. cbn [snd]. rewrite E1. subst s2. cbn [snd].
      now rewrite <- app_assoc. }
  destruct (stream_write_extends st2 None s3) as (r2 & E2).
  destruct (stream_write interface st2 None s3) as [[st3|e] s4]; cbn [snd] in E2.
  2:{ exists (r1 ++ r2)%list. cbn [snd]. rewrite E2, E1. subst s2. cbn [snd].
      now rewrite <- !app_assoc. }
  exists (r1 ++ r2)%list.
  destruct (hexdigest st3); cbn [snd]; rewrite E2, E1; subst s2; cbn [snd];
    now rewrite <- !app_assoc.
Qed.

End RouterMore.

Module RouterMoreExamples.
Import Fixtures Scenes.

Lemma auth_returns_checked_key_id_witness :
  exists st k ak,
    SignatureV4.parse get_root = Ok (Some st)
    /\ Codec.decode (SignatureV4.key_id st) = Ok k
    /\ Some "valid_access" = Some k
    /\ access_key backend (Some k) NoTarget (fst start)
       = (Ok ak, fst (InMemoryInterface.empty,
                      [CallAccessKey (Some "valid_access") NoTarget]))
    /\ snd (InMemoryInterface.empty, [CallAccessKey (Some "valid_access") NoTarget])
       = (snd start ++ [CallAccessKey (Some k) NoTarget])%list.
Proof.
  apply (auth_returns_checked_key_id backend get_root NoTarget start
           (InMemoryInterface.empty, [CallAccessKey (Some "valid_access") NoTarget])
           (Some "valid_access")).
  vm_compute; reflexivity.
Defined.


Lemma unparsable_query_stops_handler_witness :
  exists e,
    is_ValueError e = true
    /\ _write_object backend runtime put_no_query "photos" "cat.png" start
       = (Raise e, start)
    /\ _create_multipart backend runtime put_no_query "photos" "cat.png" start
       = (Raise e, start).
Proof.
  apply (unparsable_query_stops_handler backend runtime put_no_query
           "photos" "cat.png" start).
  vm_compute; reflexivity.
Defined.

Lemma part_number_required_witness :
  _write_object backend runtime put_no_part "photos" "cat.png" start
  = (Raise AssertionError, start).
Proof.
  apply (part_number_required backend runtime put_no_part "photos" "cat.png" start
           [("uploadId", "abc")]).
  - vm_compute; reflexivity.
  - vm_compute; reflexivity.
  - exact I.
Defined.

Lemma unfinalised_write_is_no_200_witness :
  exists e s',
    _write_object failing_sink runtime put_hello "photos" "hello.txt" start
    = (Raise e, s').
Proof.
  apply (unfinalised_write_is_no_200 failing_sink runtime put_hello
           "photos" "hello.txt" start).
  intros h w. exists (BackendError 500), w. reflexivity.
Defined.

Lemma completion_accepts_issued_token_witness :
  _create_multipart backend runtime complete_photos "photos" "cat.png" start
  = (Ok (Text "<CompleteMultipartUploadResult><Key>cat.png</Key></CompleteMultipartUploadResult>"),
     (InMemoryInterface.empty,
      [CallAccessKey (Some "valid_access") (BucketTarget (Bucket.mk "photos"));
       CallFinishMultipartUpload (S3Object.mk (Bucket.mk "photos") "cat.png" 0)])).
Proof.
  apply (completion_accepts_issued_token backend runtime complete_photos
           "photos" "cat.png" start
           (InMemoryInterface.empty,
            [CallAccessKey (Some "valid_access") (BucketTarget (Bucket.mk "photos"))])
           [("uploadId", photos_token)] (Some "valid_access")).
  - vm_compute; reflexivity.
  - vm_compute; reflexivity.
  - vm_compute; reflexivity.
  - vm_compute; reflexivity.
Defined.

Lemma part_upload_accepts_issued_token_witness :
  exists rest,
    snd (snd (_write_object backend runtime part_photos "photos" "cat.png" start))
    = (snd (InMemoryInterface.empty,
            [CallAccessKey (Some "valid_access") (BucketTarget (Bucket.mk "photos"))])
       ++ CallWriteObjectMultipart (S3Object.mk (Bucket.mk "photos") "cat.png" 0) 1
       :: rest)%list.
Proof.
  apply (part_upload_accepts_issued_token backend runtime part_photos
           "photos" "cat.png" start
           (InMemoryInterface.empty,
            [CallAccessKey (Some "valid_access") (BucketTarget (Bucket.mk "photos"))])
           [("uploadId", photos_token); ("partNumber", "1")] (Some "valid_access")
           "1" 1%Z).
  - vm_compute; reflexivity.
  - vm_compute; reflexivity.
  - vm_compute; reflexivity.
  - vm_compute; reflexivity.
  - vm_compute; reflexivity.
  - vm_compute; reflexivity.
Defined.

End RouterMoreExamples.

(** ** The read stream and the access check of the in-memory backend *)

Module InMemoryFacts.
Import Bytes BytesFacts ReadClaims Served.
Local Open Scope Z_scope.

Lemma take_all (s : bytes) : take (String.length s) s = s.
Proof. induction s as [|c r IH]; cbn; [reflexivity | now rewrite IH]. Qed.

Lemma take_beyond (n : nat) (s : bytes) :
  (String.length s <= n)%nat -> take n s = s.
Proof.
  revert s. induction n as [|n IH]; intros [|c r] L; cbn in *; try reflexivity; try lia.
  rewrite IH by lia. reflexivity.
Qed.

(** Draining a stream of the in-memory backend, with the size of the
    chunks. *)
Lemma provider_chunks (fuel : nat) (w : InMemoryInterface.state) (tr : list call) :
  let st := InMemoryInterface.reader w in
  0 <= InMemoryReadStream._pos st ->
  0 <= InMemoryReadStream._to_read st ->
  (Z.to_nat (InMemoryReadStream._to_read st) < fuel)%nat ->
  exists chunks s',
    _provider InMemoryInterface.interface fuel 0%nat (w, tr) = (Ok (Some chunks), s')
    /\ join "" chunks
       = slice (InMemoryReadStream._file st) (InMemoryReadStream._pos st)
               (InMemoryReadStream._to_read st)
    /\ Forall chunk_ok chunks
    /\ snd s' = (tr ++ List.repeat (CallRead 0%nat) (S (List.length chunks)))%list.
Proof.
  revert w tr. induction fuel as [|k IH]; intros w tr st Hp Ht Hf; [lia|].
  cbn [_provider]. unfold bind, invoke. cbn [fst snd read InMemoryInterface.interface].
  unfold InMemoryReadStream.read. fold st.
  destruct (Z.ltb_spec (InMemoryReadStream._pos st) 0) as [?|_]; [lia|].
  set (m := Z.min (InMemoryReadStream._to_read st) (32 * 1024)).
  assert (Hm : 0 <= m <= InMemoryReadStream._to_read st /\ m <= 32 * 1024)
    by (subst m; lia).
  unfold InMemoryReadStream.file_read.
  destruct (Z.ltb_spec m 0) as [?|_]; [lia|].
  set (x := drop (Z.to_nat (InMemoryReadStream._pos st)) (InMemoryReadStream._file st)).
  set (data := take (Z.to_nat m) x).
  destruct (String.eqb data "") eqn:E.
  - apply String.eqb_eq in E. cbn [ret].
    eexists [], _. split; [reflexivity|]. split; [|split; [constructor | reflexivity]].
    unfold slice. fold x. cbn [join].
    destruct (take_empty _ _ E) as [Z0| ->].
    + assert (InMemoryReadStream._to_read st = 0) by (subst m; lia).
      now replace (InMemoryReadStream._to_read st) with 0.
    + now destruct (Z.to_nat _).
  - apply String.eqb_neq in E.
    set (w1 := InMemoryInterface.with_reader w
                 {| InMemoryReadStream._file := InMemoryReadStream._file st;
                    InMemoryReadStream._pos :=
                      InMemoryReadStream._pos st + InMemoryReadStream.len data;
                    InMemoryReadStream._to_read :=
                      InMemoryReadStream._to_read st - InMemoryReadStream.len data |}).
    assert (Ld : (1 <= String.length data <= Z.to_nat m)%nat).
    { split.
      - destruct data; [congruence | cbn; lia].
      - subst data. rewrite length_take. lia. }
    destruct (IH w1 (tr ++ [CallRead 0%nat])%list) as (chunks & s' & R & J & F & T).
    + cbn. unfold InMemoryReadStream.len. lia.
    + cbn. unfold InMemoryReadStream.len. lia.
    + cbn. unfold InMemoryReadStream.len. lia.
    + exists (data :: chunks), s'. fold w1. rewrite R. cbn [ret option_map].
      split; [reflexivity|]. split; [|split].
      * change (join "" (data :: chunks))
          with (match chunks with [] => data | _ :: _ => data ++ "" ++ join "" chunks end).
        assert (Jc : match chunks with [] => data | _ :: _ => data ++ "" ++ join "" chunks end
                     = data ++ join "" chunks).
        { destruct chunks; [now rewrite app_empty_r | reflexivity]. }
        rewrite Jc, J. unfold slice. cbn [InMemoryInterface.reader w1
          InMemoryInterface.with_reader InMemoryReadStream._file
          InMemoryReadStream._pos InMemoryReadStream._to_read].
        unfold InMemoryReadStream.len.
        rewrite Z2Nat.inj_add, Z2Nat.inj_sub, !Nat2Z.id by lia.
        rewrite <- drop_drop. fold x. subst data.
        apply take_then_take. lia.
      * constructor; [|exact F]. unfold chunk_ok. lia.
      * rewrite T. cbn [List.length List.repeat]. now rewrite <- List.app_assoc.
Qed.

(** X12: a stream opened without a range serves the whole object: the
    generator ends after one read per chunk and one more, the chunks are
    non-empty, at most 32 KiB each, and concatenate to the content. *)
Theorem whole_object_is_served
        (content : bytes) (fuel : nat) (w : InMemoryInterface.state) (tr : list call) :
  InMemoryInterface.reader w = InMemoryInterface.open_read content None ->
  (String.length content < fuel)%nat ->
  exists chunks s',
    _provider InMemoryInterface.interface fuel 0%nat (w, tr) = (Ok (Some chunks), s')
    /\ join "" chunks = content
    /\ Forall chunk_ok chunks
    /\ snd s' = (tr ++ List.repeat (CallRead 0%nat) (S (List.length chunks)))%list.
Proof.
  intros R L.
  assert (T : InMemoryReadStream._to_read (InMemoryInterface.reader w)
              = Z.of_nat (String.length content)) by (rewrite R; reflexivity).
  destruct (provider_chunks fuel w tr) as (chunks & s' & P & J & F & C).
  - rewrite R. cbn. lia.
  - rewrite T. lia.
  - rewrite T, Nat2Z.id. exact L.
  - exists chunks, s'. split; [exact P|]. split; [|now split].
    rewrite J, T, R. unfold slice. cbn. rewrite Nat2Z.id. apply take_all.
Qed.

Lemma whole_object_is_served_witness :
  exists chunks s',
    _provider InMemoryInterface.interface 12 0%nat
              (InMemoryInterface.with_reader (Fixtures.holding "hello world")
                 (InMemoryInterface.open_read "hello world" None), [])
    = (Ok (Some chunks), s')
    /\ join "" chunks = "hello world"
    /\ Forall chunk_ok chunks
    /\ snd s' = ([] ++ List.repeat (CallRead 0%nat) (S (List.length chunks)))%list.
Proof.
  apply (whole_object_is_served "hello world" 12
           (InMemoryInterface.with_reader (Fixtures.holding "hello world")
              (InMemoryInterface.open_read "hello world" None)) []).
  - reflexivity.
  - vm_compute. lia.
Defined.

(** X13: a range whose end lies before its start is read as "to the end":
    the stream serves the object from [start] on. *)
Theorem inverted_range_reads_to_end
        (content : bytes) (start stop : Z) (fuel : nat) :
  0 <= start -> stop < start ->
  (String.length content < fuel)%nat ->
  exists chunks s',
    _provider InMemoryInterface.interface fuel 0%nat
              (InMemoryInterface.reading content start stop, [])
    = (Ok (Some chunks), s')
    /\ join "" chunks = drop (Z.to_nat start) content.
Proof.
  intros Hs Hi L.
  assert (T : InMemoryReadStream._to_read
                (InMemoryInterface.reader (InMemoryInterface.reading content start stop))
              = Z.of_nat (String.length content)).
  { cbn. destruct (Z.ltb_spec (stop - start) 0); [reflexivity | lia]. }
  destruct (provider_chunks fuel (InMemoryInterface.reading content start stop) [])
    as (chunks & s' & P & J & _).
  - cbn. lia.
  - rewrite T. lia.
  - rewrite T, Nat2Z.id. exact L.
  - exists chunks, s'. split; [exact P|].
    rewrite J, T. unfold slice. cbn. rewrite Nat2Z.id.
    apply take_beyond. rewrite length_drop. lia.
Qed.

Lemma inverted_range_reads_to_end_witness :
  exists chunks s',
    _provider InMemoryInterface.interface 12 0%nat
              (InMemoryInterface.reading "hello world" 4 2, [])
    = (Ok (Some chunks), s')
    /\ join "" chunks = drop (Z.to_nat 4) "hello world".
Proof.
  apply (inverted_range_reads_to_end "hello world" 4 2 12).
  - lia.
  - lia.
  - vm_compute. lia.
Defined.

(** X14: a range that starts before the object makes the first read fail
    with [ValueError]; nothing is served. *)
Theorem negative_start_is_value_error
        (content : bytes) (start stop : Z) (fuel : nat) :
  start < 0 ->
  fst (_provider InMemoryInterface.interface (S fuel) 0%nat
         (InMemoryInterface.reading content start stop, []))
  = Raise ValueError.
Proof.
  intros H. cbn [_provider]. unfold bind, invoke.
  cbn [fst snd read InMemoryInterface.interface InMemoryInterface.reading
       InMemoryInterface.reader InMemoryInterface.open_read].
  unfold InMemoryReadStream.read, InMemoryReadStream.init.
  cbn [InMemoryReadStream._pos].
  destruct (Z.ltb_spec start 0); [reflexivity | lia].
Qed.

Lemma negative_start_is_value_error_witness :
  fst (_provider InMemoryInterface.interface 1 0%nat
         (InMemoryInterface.reading "hello" (-1) 3, []))
  = Raise ValueError.
Proof.
  apply (negative_start_is_value_error "hello" (-1) 3 0). lia.
Defined.

(** X15: the access check of the in-memory backend leaves the backend as
    it is; it hands out a secret to the key id [valid_access] only, and it
    grants access without a secret exactly to a caller it does not know by
    name, anonymous or not, on a target in the bucket [public]. *)
Theorem in_memory_access_check (key_id : option str) (t : target)
        (w : InMemoryInterface.state) :
  snd (InMemoryInterface.access_key key_id t w) = w
  /\ (forall secret,
         fst (InMemoryInterface.access_key key_id t w) = Ok (Some secret)
         <-> key_id = Some "valid_access" /\ secret = "access_key")
  /\ (fst (InMemoryInterface.access_key key_id t w) = Ok None
      <-> known key_id = false /\ is_public t = true).
Proof.
  unfold InMemoryInterface.access_key, known, is_public, bucket_of.
  destruct key_id as [k|].
  - destruct (String.eqb k "valid_access") eqn:E1.
    { apply String.eqb_eq in E1. subst k. cbn. split; [reflexivity|]. split.
      - intros secret. split.
        + intros H. injection H as <-. now split.
        + intros [_ ->]. reflexivity.
      - split; [discriminate | intros [H _]; discriminate H]. }
    apply String.eqb_neq in E1.
    destruct (String.eqb k "valid_no_access") eqn:E2.
    { cbn. split; [reflexivity|]. split.
      - intros secret. split; [discriminate | intros [H _]; congruence].
      - split; [discriminate | intros [H _]; discriminate H]. }
    destruct (String.eqb k "invalid") eqn:E3.
    { cbn. split; [reflexivity|]. split.
      - intros secret. split; [discriminate | intros [H _]; congruence].
      - split; [discriminate | intros [H _]; discriminate H]. }
    cbn [orb].
    destruct t as [|b|o]; cbn.
    + split; [reflexivity|]. split.
      * intros secret. split; [discriminate | intros [H _]; congruence].
      * split; [discriminate | intros [_ H]; discriminate H].
    + destruct (String.eqb (Bucket.name b) "public"); cbn;
        (split; [reflexivity|]); split;
        try (intros secret; split; [discriminate | intros [H _]; congruence]);
        try (split; [discriminate | intros [_ H]; discriminate H]);
        now split.
    + destruct (String.eqb (Bucket.name (S3Object.bucket o)) "public"); cbn;
        (split; [reflexivity|]); split;
        try (intros secret; split; [discriminate | intros [H _]; congruence]);
        try (split; [discriminate | intros [_ H]; discriminate H]);
        now split.
  - cbn.
    destruct t as [|b|o]; cbn.
    + split; [reflexivity|]. split.
      * intros secret. split; [discriminate | intros [H _]; discriminate H].
      * split; [discriminate | intros [_ H]; discriminate H].
    + destruct (String.eqb (Bucket.name b) "public"); cbn;
        (split; [reflexivity|]); split;
        try (intros secret; split; [discriminate | intros [H _]; discriminate H]);
        try (split; [discriminate | intros [_ H]; discriminate H]);
        now split.
    + destruct (String.eqb (Bucket.name (S3Object.bucket o)) "public"); cbn;
        (split; [reflexivity|]); split;
        try (intros secret; split; [discriminate | intros [H _]; discriminate H]);
        try (split; [discriminate | intros [_ H]; discriminate H]);
        now split.
Qed.

End InMemoryFacts.

(** ** The in-memory backend of the tests *)

Module PyDictFacts.
Import PyDict.

Lemma get_set_same {V} (k : str) (v : V) (d : t V) : get k (set k v d) = Some v.
Proof.
  induction d as [|[k' v'] r IH]; cbn [set get].
  - now rewrite String.eqb_refl.
  - destruct (String.eqb k' k) eqn:E; cbn [get]; rewrite E; [reflexivity | exact IH].
Qed.

Lemma get_set_other {V} (k k0 : str) (v : V) (d : t V) :
  k0 <> k -> get k0 (set k v d) = get k0 d.
Proof.
  intros N. induction d as [|[k' v'] r IH]; cbn [set get].
  - destruct (String.eqb k k0) eqn:E; [|reflexivity].
    apply String.eqb_eq in E. congruence.
  - destruct (String.eqb k' k) eqn:E; cbn [get].
    + apply String.eqb_eq in E. subst k'.
      destruct (String.eqb k k0) eqn:E0; [|reflexivity].
      apply String.eqb_eq in E0. congruence.
    + now rewrite IH.
Qed.

Lemma keys_set_new {V} (k : str) (v : V) (d : t V) :
  mem k d = false -> keys (set k v d) = (keys d ++ [k])%list.
Proof.
  unfold mem. induction d as [|[k' v'] r IH]; cbn [set get keys List.map]; [reflexivity|].
  destruct (String.eqb k' k); [discriminate|].
  intros H. cbn [List.map fst app]. f_equal. now apply IH.
Qed.

Lemma keys_set_old {V} (k : str) (v : V) (d : t V) :
  mem k d = true -> keys (set k v d) = keys d.
Proof.
  unfold mem. induction d as [|[k' v'] r IH]; cbn [set get keys List.map]; [discriminate|].
  destruct (String.eqb k' k); [reflexivity|].
  intros H. cbn [List.map fst]. f_equal. now apply IH.
Qed.

Lemma remove_set_new {V} (k : str) (v : V) (d : t V) :
  mem k d = false -> remove k (set k v d) = d.
Proof.
  unfold mem. induction d as [|[k' v'] r IH]; cbn [set get remove].
  - now rewrite String.eqb_refl.
  - destruct (String.eqb k' k) eqn:E; [discriminate|].
    intros H. cbn [remove]. rewrite E. f_equal. now apply IH.
Qed.

Lemma get_remove_same {V} (k : str) (d : t V) :
  NoDup (keys d) -> get k (remove k d) = None.
Proof.
  induction d as [|[k' v'] r IH]; intros N; [reflexivity|].
  cbn [remove]. inversion N as [|? ? Hn Hr]; subst.
  destruct (String.eqb k' k) eqn:E.
  - apply String.eqb_eq in E. subst k'.
    clear IH N Hr. induction r as [|[k2 v2] r IH]; [reflexivity|].
    cbn [get]. destruct (String.eqb k2 k) eqn:E2.
    + apply String.eqb_eq in E2. subst. destruct Hn. now left.
    + apply IH. intros I. apply Hn. now right.
  - cbn [get]. rewrite E. now apply IH.
Qed.

Lemma remove_absent {V} (k : str) (d : t V) : mem k d = false -> remove k d = d.
Proof.
  unfold mem. induction d as [|[k' v'] r IH]; [reflexivity|].
  cbn [get remove]. destruct (String.eqb k' k); [discriminate|].
  intros H. f_equal. now apply IH.
Qed.

Lemma access_get {V} (k : str) (d : t (t V)) :
  get k (snd (access k d)) = Some (fst (access k d)).
Proof.
  unfold access. destruct (get k d) eqn:E; cbn [fst snd]; [exact E|].
  apply get_set_same.
Qed.

End PyDictFacts.

Module SparseListFacts.
Import Conftest Conftest.SparseList.
Local Open Scope Z_scope.

Lemma nth_update {A} (i j : nat) (v d : A) (l : list A) :
  (i < List.length l)%nat ->
  nth j (firstn i l ++ v :: skipn (S i) l)%list d
  = if Nat.eqb j i then v else nth j l d.
Proof.
  revert j l. induction i as [|i IH]; intros j [|a l] L; cbn in L; try lia.
  - destruct j; reflexivity.
  - destruct j as [|j]; [reflexivity|].
    cbn [firstn skipn app nth Nat.eqb]. apply IH. lia.
Qed.

Lemma length_update {A} (i : nat) (v : A) (l : list A) :
  (i < List.length l)%nat ->
  List.length (firstn i l ++ v :: skipn (S i) l)%list = List.length l.
Proof.
  intros L. rewrite length_app. cbn [List.length].
  rewrite firstn_length_le, length_skipn by lia. lia.
Qed.

Lemma nth_padded {A} (j k : nat) (d : A) (l : list A) :
  nth j (l ++ List.repeat d k)%list d = nth j l d.
Proof.
  destruct (Nat.lt_ge_cases j (List.length l)) as [L|L].
  - now rewrite app_nth1.
  - rewrite app_nth2 by exact L. rewrite (nth_overflow l) by exact L.
    generalize (j - List.length l)%nat. intros m. revert m.
    induction k as [|k IH]; intros [|m]; cbn; auto.
Qed.

Lemma getitem_nth (l : t) (j : Z) :
  0 <= j -> getitem l j = nth (Z.to_nat j) l None.
Proof.
  intros H. unfold getitem. cbv zeta.
  destruct (Z.ltb_spec j 0); [lia|]. cbn [orb].
  destruct (Z.ltb_spec j 0); [lia|]. cbn [orb].
  destruct (Z.leb_spec (Z.of_nat (List.length l)) j); [|reflexivity].
  symmetry. apply nth_overflow. lia.
Qed.

Lemma setitem_getitem (l : t) (i : Z) (v : option file_id) :
  0 <= i ->
  exists l',
    setitem l i v = Ok l'
    /\ (forall j, 0 <= j -> getitem l' j = (if j =? i then v else getitem l j))
    /\ Z.of_nat (List.length l') = Z.max (Z.of_nat (List.length l)) (i + 1).
Proof.
  intros Hi. unfold setitem. cbv zeta.
  set (l0 := if 0 <? i - Z.of_nat (List.length l) + 1
             then (l ++ List.repeat None (Z.to_nat (i - Z.of_nat (List.length l) + 1)))%list
             else l).
  assert (L0 : Z.of_nat (List.length l0) = Z.max (Z.of_nat (List.length l)) (i + 1)).
  { subst l0. destruct (Z.ltb_spec 0 (i - Z.of_nat (List.length l) + 1)).
    - rewrite length_app, repeat_length. lia.
    - lia. }
  assert (N0 : forall k, nth k l0 None = nth k l None).
  { intros k. subst l0. destruct (0 <? _); [apply nth_padded | reflexivity]. }
  unfold list_setitem. cbv zeta.
  destruct (Z.ltb_spec i 0); [lia|]. cbn [orb].
  destruct (Z.ltb_spec i 0); [lia|]. cbn [orb].
  destruct (Z.leb_spec (Z.of_nat (List.length l0)) i); [lia|].
  eexists. split; [reflexivity|]. split.
  - intros j Hj. rewrite !getitem_nth by lia. rewrite nth_update by lia. rewrite N0.
    destruct (Z.eqb_spec j i) as [->|Ne].
    + now rewrite Nat.eqb_refl.
    + destruct (Nat.eqb_spec (Z.to_nat j) (Z.to_nat i)); [lia | reflexivity].
  - rewrite length_update by lia. exact L0.
Qed.

(** X16: storing into a sparse list at an index from 0 on always works:
    the list grows to hold the index, the slot reads back what was stored,
    and every other slot reads as before, [None] where nothing was stored. *)
Theorem sparse_list_set_get (l : t) (i j : Z) (v : option file_id) :
  0 <= i -> 0 <= j ->
  exists l',
    setitem l i v = Ok l'
    /\ getitem l' j = (if j =? i then v else getitem l j)
    /\ Z.of_nat (List.length l') = Z.max (Z.of_nat (List.length l)) (i + 1).
Proof.
  intros Hi Hj. destruct (setitem_getitem l i v Hi) as (l' & S & G & L).
  exists l'. split; [exact S|]. split; [now apply G | exact L].
Qed.

Lemma sparse_list_set_get_witness :
  exists l',
    setitem [] 2 (Some 7%nat) = Ok l'
    /\ getitem l' 2 = (if 2 =? 2 then Some 7%nat else getitem [] 2)
    /\ Z.of_nat (List.length l') = Z.max (Z.of_nat (List.length (@nil (option file_id)))) (2 + 1).
Proof.
  apply (sparse_list_set_get [] 2 2 (Some 7%nat)); lia.
Defined.

Lemma firstn_last {A} (l : list A) (x : A) :
  firstn (List.length l) (l ++ [x])%list = l.
Proof. induction l as [|a l IH]; cbn; [reflexivity | now rewrite IH]. Qed.

Lemma skipn_last {A} (l : list A) (x : A) :
  skipn (S (List.length l)) (l ++ [x])%list = [].
Proof. induction l as [|a l IH]; [reflexivity | exact IH]. Qed.

(** X17: the index -1, which is where part number 0 goes, is no slot of
    its own: on an empty sparse list storing there is an [IndexError], on
    any other it overwrites the last slot. *)
Theorem sparse_list_set_minus_one (l : t) (x v : option file_id) :
  setitem [] (-1) v = Raise IndexError
  /\ setitem (l ++ [x])%list (-1) v = Ok (l ++ [v])%list.
Proof.
  split; [reflexivity|].
  unfold setitem. cbv zeta. rewrite length_app. cbn [List.length].
  destruct (Z.ltb_spec 0 (-1 - Z.of_nat (List.length l + 1) + 1)); [lia|].
  unfold list_setitem. cbv zeta. rewrite !length_app. cbn [List.length Z.ltb Z.compare].
  destruct (Z.ltb_spec (-1 + Z.of_nat (List.length l + 1)) 0); [lia|]. cbn [orb].
  destruct (Z.leb_spec (Z.of_nat (List.length l + 1))
                       (-1 + Z.of_nat (List.length l + 1))); [lia|].
  replace (Z.to_nat (-1 + Z.of_nat (List.length l + 1))) with (List.length l) by lia.
  f_equal. now rewrite firstn_last, skipn_last.
Qed.

End SparseListFacts.

Module ConftestFacts.
Import Bytes BytesFacts ReadClaims PyDict PyDictFacts Conftest.

Lemma nth_replace_same {A} (n : nat) (x d : A) (l : list A) :
  n < List.length l -> nth n (replace_nth n x l) d = x.
Proof.
  revert l. induction n as [|n IH]; intros [|a l] L; cbn in *; try lia; [reflexivity|].
  apply IH. lia.
Qed.

Lemma nth_replace_other {A} (n j : nat) (x d : A) (l : list A) :
  j <> n -> nth j (replace_nth n x l) d = nth j l d.
Proof.
  revert j l. induction n as [|n IH]; intros j [|a l] N; cbn; try reflexivity.
  - destruct j; [lia | reflexivity].
  - destruct j; [reflexivity|]. apply IH. lia.
Qed.

Lemma length_replace {A} (n : nat) (x : A) (l : list A) :
  List.length (replace_nth n x l) = List.length l.
Proof.
  revert l. induction n as [|n IH]; intros [|a l]; cbn; try reflexivity.
  now rewrite IH.
Qed.

Lemma replace_beyond {A} (n : nat) (x : A) (l : list A) :
  List.length l <= n -> replace_nth n x l = l.
Proof.
  revert l. induction n as [|n IH]; intros [|a l] L; cbn in *; try reflexivity; try lia.
  rewrite IH by lia. reflexivity.
Qed.

Lemma file_at_with_file_other (w : state) (id j : file_id) (f : BytesIO) :
  j <> id -> file_at (with_file w id f) j = file_at w j.
Proof. intros N. unfold file_at, with_file. cbn. now apply nth_replace_other. Qed.

Lemma file_at_with_file_same (w : state) (id : file_id) (f : BytesIO) :
  id < List.length (files w) -> file_at (with_file w id f) id = f.
Proof. intros L. unfold file_at, with_file. cbn. now apply nth_replace_same. Qed.

(** Moving the position of a file changes no content. *)
Lemma buffer_kept (w : state) (id j : file_id) (f : BytesIO) :
  buffer f = buffer (file_at w id) ->
  buffer (file_at (with_file w id f) j) = buffer (file_at w j).
Proof.
  intros E. destruct (Nat.eq_dec j id) as [->|N].
  - destruct (Nat.lt_ge_cases id (List.length (files w))) as [L|L].
    + now rewrite file_at_with_file_same.
    + unfold with_file, file_at. cbn. now rewrite replace_beyond.
  - now rewrite file_at_with_file_other.
Qed.

Lemma take_app_exact (a b : bytes) : take (String.length a) (a ++ b) = a.
Proof. induction a as [|c a IH]; cbn; [now destruct b | now rewrite IH]. Qed.

Lemma drop_beyond (n : nat) (s : bytes) : String.length s <= n -> drop n s = "".
Proof.
  revert s. induction n as [|n IH]; intros [|c r] L; cbn in *; try reflexivity; try lia.
  apply IH. lia.
Qed.

(** Writing at the end of a file appends. *)
Lemma file_write_appends (f : BytesIO) (data : bytes) :
  position f = String.length (buffer f) ->
  buffer (file_write f data) = buffer f ++ data
  /\ position (file_write f data) = String.length (buffer f ++ data).
Proof.
  intros P. unfold file_write. destruct (String.eqb data "") eqn:E.
  - apply String.eqb_eq in E. subst data. rewrite app_empty_r. now split.
  - cbn [buffer position]. rewrite P, Nat.sub_diag. cbn [Bytes.repeat].
    rewrite take_app_exact.
    rewrite drop_beyond by (rewrite length_app; cbn; lia).
    rewrite app_empty_r, length_app. now split.
Qed.

Lemma write_all_appends (file : file_id) (chunks : list (option bytes)) (w : state) :
  file < List.length (files w) ->
  position (file_at w file) = String.length (buffer (file_at w file)) ->
  let w' := write_all file chunks w in
  buffer (file_at w' file) = buffer (file_at w file) ++ data_of chunks
  /\ _objects w' = _objects w
  /\ List.length (files w') = List.length (files w).
Proof.
  revert w. induction chunks as [|c l IH]; intros w L P; cbn [write_all fold_left data_of].
  - rewrite app_empty_r. now repeat split.
  - destruct c as [c|]; cbn [write]; [|now apply IH].
    destruct (file_write_appends (file_at w file) c P) as (B & Q).
    set (w1 := with_file w file (file_write (file_at w file) c)).
    assert (F1 : file_at w1 file = file_write (file_at w file) c)
      by (now apply file_at_with_file_same).
    destruct (IH w1) as (B' & O' & L').
    + unfold w1, with_file. cbn. now rewrite length_replace.
    + rewrite F1, Q. now rewrite B.
    + unfold write_all in *. rewrite B', F1, B, app_assoc.
      split; [reflexivity|]. split; [exact O'|].
      rewrite L'. unfold w1, with_file. cbn. now rewrite length_replace.
Qed.

(** Reading a stream of the backend to its end. *)
Lemma read_to_end_slice (fuel : nat) (r : InMemoryReadStream) (w : state) :
  (0 <= _pos r)%Z -> (0 <= _to_read r)%Z ->
  Z.to_nat (_to_read r) < fuel ->
  exists chunks w',
    read_to_end fuel r w = (Ok (Some chunks), w')
    /\ join "" chunks = slice (buffer (file_at w (_file r))) (_pos r) (_to_read r)
    /\ _objects w' = _objects w
    /\ (forall j, buffer (file_at w' j) = buffer (file_at w j)).
Proof.
  revert r w. induction fuel as [|k IH]; intros r w Hp Ht Hf; [lia|].
  cbn [read_to_end]. unfold read, file_seek.
  destruct (Z.ltb_spec (_pos r) 0) as [?|_]; [lia|].
  unfold file_read. cbn [buffer position].
  set (m := Z.min (_to_read r) (32 * 1024)).
  assert (Hm : (0 <= m <= _to_read r)%Z) by (subst m; lia).
  destruct (Z.ltb_spec m 0) as [?|_]; [lia|].
  set (b := buffer (file_at w (_file r))).
  set (x := drop (Z.to_nat (_pos r)) b).
  set (data := take (Z.to_nat m) x).
  set (f' := {| buffer := b; position := Z.to_nat (_pos r) + String.length data |}).
  destruct (String.eqb data "") eqn:E.
  - apply String.eqb_eq in E.
    eexists [], _. split; [reflexivity|].
    split; [|split; [reflexivity | intros j; now apply buffer_kept]].
    unfold slice. fold x. cbn [join].
    destruct (take_empty _ _ E) as [Z0| ->].
    + assert (_to_read r = 0%Z) by (subst m; lia).
      now replace (_to_read r) with 0%Z.
    + now destruct (Z.to_nat _).
  - apply String.eqb_neq in E.
    assert (Ld : 1 <= String.length data <= Z.to_nat m).
    { split.
      - destruct data; [congruence | cbn; lia].
      - subst data. rewrite length_take. lia. }
    set (r1 := {| _file := _file r;
                  _pos := (_pos r + Z.of_nat (String.length data))%Z;
                  _to_read := (_to_read r - Z.of_nat (String.length data))%Z |}).
    destruct (IH r1 (with_file w (_file r) f')) as (chunks & w' & R & J & O & K).
    + cbn. lia.
    + cbn. lia.
    + cbn. lia.
    + rewrite R. cbn [option_map]. exists (data :: chunks), w'.
      split; [reflexivity|].
      split; [|split; [exact O | intros j; rewrite K; now apply buffer_kept]].
      change (join "" (data :: chunks))
        with (match chunks with [] => data | _ :: _ => data ++ "" ++ join "" chunks end).
      assert (Jc : match chunks with [] => data | _ :: _ => data ++ "" ++ join "" chunks end
                   = data ++ join "" chunks).
      { destruct chunks; [now rewrite app_empty_r | reflexivity]. }
      rewrite Jc, J. cbn [_file _pos _to_read r1].
      rewrite (buffer_kept w (_file r) (_file r) f') by reflexivity. fold b.
      unfold slice.
      rewrite Z2Nat.inj_add, Z2Nat.inj_sub, !Nat2Z.id by lia.
      rewrite <- drop_drop. fold x. subst data.
      apply take_then_take. lia.
Qed.

Lemma allocate_fresh (w : state) :
  let '(id, w1) := allocate w in
  id = List.length (files w)
  /\ file_at w1 id = new_file
  /\ List.length (files w1) = S id
  /\ _objects w1 = _objects w
  /\ _multipart_uploads w1 = _multipart_uploads w
  /\ (forall j, j < id -> file_at w1 j = file_at w j).
Proof.
  unfold allocate, file_at, with_files. cbn.
  repeat split.
  - now rewrite nth_middle.
  - rewrite List.length_app. cbn. lia.
  - intros j L. now rewrite app_nth1.
Qed.

(** X18: what is written to an object is what is read back: after
    [write_object] and any sequence of writes on its stream, the object
    read without a range and drained yields exactly the bytes written, in
    order, whether or not the bucket was ever created. *)
Theorem written_object_reads_back
        (w : state) (key key' : option str) (bucket : Bucket.t) (name : str)
        (size size' : Z) (chunks : list (option bytes)) (fuel : nat) :
  String.length (data_of chunks) < fuel ->
  exists id w1 rd w3 cs w4,
    write_object key bucket name size w = (Ok id, w1)
    /\ read_object key' (S3Object.mk bucket name size') None (write_all id chunks w1)
       = (Ok rd, w3)
    /\ read_to_end fuel rd w3 = (Ok (Some cs), w4)
    /\ join "" cs = data_of chunks
    /\ stored w4 (Bucket.name bucket) name = Some (data_of chunks).
Proof.
  intros Hf. unfold write_object.
  pose proof (allocate_fresh w) as A.
  destruct (allocate w) as [id w0]. destruct A as (Hid & Fnew & Len & Obj & _ & _).
  pose proof (access_get (Bucket.name bucket) (_objects w0)) as G.
  destruct (access (Bucket.name bucket) (_objects w0)) as [inner objects].
  cbn [fst snd] in G.
  set (objs := set (Bucket.name bucket) (set name id inner) objects).
  set (w1 := with_objects w0 objs).
  assert (G1 : get (Bucket.name bucket) objs = Some (set name id inner))
    by apply get_set_same.
  destruct (write_all_appends id chunks w1) as (B & O & L).
  { unfold w1, with_objects. cbn. lia. }
  { unfold w1, with_objects, file_at in *. cbn. now rewrite Fnew. }
  cbv zeta in B, O, L.
  set (w2 := write_all id chunks w1) in *.
  assert (Bw : buffer (file_at w2 id) = data_of chunks).
  { rewrite B. unfold w1, with_objects, file_at in *. cbn. now rewrite Fnew. }
  assert (Ow : _objects w2 = objs) by (rewrite O; reflexivity).
  set (w3 := with_objects w2 objs).
  set (rd := open w3 id 0 (-1)).
  assert (RO : read_object key' (S3Object.mk bucket name size') None w2 = (Ok rd, w3)).
  { unfold read_object. cbn [S3Object.bucket S3Object.name].
    unfold access. rewrite Ow, G1, get_set_same. reflexivity. }
  assert (F3 : file_at w3 id = file_at w2 id) by reflexivity.
  destruct (read_to_end_slice fuel rd w3) as (cs & w4 & R & J & O4 & K4).
  { cbn. lia. }
  { cbn. lia. }
  { cbn [rd open _to_read Z.ltb Z.compare]. rewrite F3, Bw, Nat2Z.id. exact Hf. }
  exists id, w1, rd, w3, cs, w4.
  split; [reflexivity|]. split; [exact RO|]. split; [exact R|].
  assert (Jd : join "" cs = data_of chunks).
  { rewrite J. cbn [rd open _file _pos _to_read Z.ltb Z.compare].
    rewrite F3, Bw. unfold slice. cbn [Z.to_nat drop]. rewrite Nat2Z.id.
    apply InMemoryFacts.take_all. }
  split; [exact Jd|].
  unfold stored. rewrite O4. cbn [w3 with_objects _objects].
  rewrite G1, get_set_same. cbn [option_map]. f_equal.
  now rewrite K4, F3.
Qed.

Lemma written_object_reads_back_witness :
  exists id w1 rd w3 cs w4,
    write_object None (Bucket.mk "photos") "cat.png" 11 reset = (Ok id, w1)
    /\ read_object None (S3Object.mk (Bucket.mk "photos") "cat.png" 0) None
         (write_all id [Some "hello "; None; Some "world"] w1)
       = (Ok rd, w3)
    /\ read_to_end 12 rd w3 = (Ok (Some cs), w4)
    /\ join "" cs = data_of [Some "hello "; None; Some "world"]
    /\ stored w4 (Bucket.name (Bucket.mk "photos")) "cat.png"
       = Some (data_of [Some "hello "; None; Some "world"]).
Proof.
  apply (written_object_reads_back reset None None (Bucket.mk "photos") "cat.png"
           11 0 [Some "hello "; None; Some "world"] 12).
  vm_compute. lia.
Defined.

Lemma length_with_file (w : state) (id : file_id) (f : BytesIO) :
  List.length (files (with_file w id f)) = List.length (files w).
Proof. unfold with_file. cbn. apply length_replace. Qed.

(** The parts before the first gap are appended in the order of the
    list. *)
Lemma append_parts_prefix (file : file_id) (ids : list file_id)
      (rest : SparseList.t) (w : state) :
  file < List.length (files w) ->
  position (file_at w file) = String.length (buffer (file_at w file)) ->
  Forall (fun i => i <> file) ids ->
  exists w',
    append_parts file (List.map Some ids ++ rest)%list w = append_parts file rest w'
    /\ buffer (file_at w' file)
       = buffer (file_at w file)
         ++ join "" (List.map (fun i => buffer (file_at w i)) ids)
    /\ _objects w' = _objects w
    /\ (forall j, j <> file -> buffer (file_at w' j) = buffer (file_at w j)).
Proof.
  revert w. induction ids as [|i ids IH]; intros w L P D.
  - exists w. cbn. rewrite app_empty_r. now repeat split.
  - inversion D as [|? ? Ni D']; subst.
    cbn [List.map app append_parts]. unfold file_seek. cbn [Z.ltb Z.compare].
    unfold file_read. cbn [buffer position Z.ltb Z.compare Z.to_nat drop].
    set (d := buffer (file_at w i)).
    set (f' := {| buffer := d; position := 0 + String.length d |}).
    set (w1 := with_file w i f').
    assert (K1 : forall j, buffer (file_at w1 j) = buffer (file_at w j))
      by (intros j; now apply buffer_kept).
    assert (F1 : file_at w1 file = file_at w file)
      by (apply file_at_with_file_other; congruence).
    set (w2 := with_file w1 file (file_write (file_at w1 file) d)).
    assert (L1 : file < List.length (files w1))
      by (unfold w1; now rewrite length_with_file).
    assert (F2 : file_at w2 file = file_write (file_at w file) d)
      by (unfold w2; rewrite file_at_with_file_same, F1; [reflexivity | exact L1]).
    destruct (file_write_appends (file_at w file) d P) as (B & Q).
    assert (K2 : forall j, j <> file -> buffer (file_at w2 j) = buffer (file_at w j)).
    { intros j N. unfold w2. rewrite file_at_with_file_other by exact N. apply K1. }
    destruct (IH w2) as (w' & A & B' & O & K); [| |exact D'|].
    + unfold w2. now rewrite length_with_file.
    + now rewrite F2, Q, B.
    + exists w'. split; [exact A|]. split; [|split].
      * rewrite B', F2, B, join_empty_cons, <- app_assoc. do 2 f_equal.
        apply map_ext_in. intros j Hj. apply K2.
        rewrite Forall_forall in D'. now apply D'.
      * exact O.
      * intros j N. rewrite K by exact N. now apply K2.
Qed.

(** What [finish_multipart_upload] has done when it reaches the slots
    after the first [ids]. *)
Lemma finish_prefix (object_ : S3Object.t) (w : state)
      (uploads : PyDict.t SparseList.t) (ids : list file_id) (rest : SparseList.t) :
  let bucket := Bucket.name (S3Object.bucket object_) in
  get bucket (_multipart_uploads w) = Some uploads ->
  get (S3Object.name object_) uploads = Some (List.map Some ids ++ rest)%list ->
  Forall (fun i => i < List.length (files w)) ids ->
  exists w',
    finish_multipart_upload object_ w
    = append_parts (List.length (files w)) rest w'
    /\ stored w' bucket (S3Object.name object_)
       = Some (join "" (List.map (fun i => buffer (file_at w i)) ids)).
Proof.
  intros bucket U P B. unfold finish_multipart_upload. fold bucket.
  pose proof (allocate_fresh w) as A.
  destruct (allocate w) as [file w1].
  destruct A as (Hid & Fnew & Len & _ & Up & Old).
  pose proof (access_get bucket (_objects w1)) as G.
  destruct (access bucket (_objects w1)) as [inner objects]. cbn [fst snd] in G.
  set (objs := set bucket (set (S3Object.name object_) file inner) objects).
  set (w2 := with_objects w1 objs).
  assert (U2 : get bucket (_multipart_uploads w2) = Some uploads)
    by (cbn [w2 with_objects _multipart_uploads]; now rewrite Up).
  unfold access. rewrite U2, P.
  set (w3 := with_uploads w2 (_multipart_uploads w2)).
  destruct (append_parts_prefix file ids rest w3) as (w' & E & Bf & O & K).
  - cbn [w3 w2 with_uploads with_objects files]. lia.
  - change (file_at w3 file) with (file_at w1 file). now rewrite Fnew.
  - rewrite Forall_forall in *. intros i Hi. specialize (B i Hi). lia.
  - exists w'. subst file. split; [exact E|].
    unfold stored. rewrite O. cbn [w3 w2 with_uploads with_objects _objects].
    unfold objs. rewrite !get_set_same. cbn [option_map]. f_equal.
    rewrite Bf. change (file_at w3 (List.length (files w)))
      with (file_at w1 (List.length (files w))).
    rewrite Fnew. change (buffer new_file ++ ?x) with x. f_equal.
    apply map_ext_in. intros i Hi. change (file_at w3 i) with (file_at w1 i).
    rewrite Old; [reflexivity|]. rewrite Forall_forall in B. now apply B.
Qed.

(** X19: finishing a multipart upload whose slots all hold a part stores,
    under the object's name, the contents of the parts joined in the order
    of their slots, whatever position each part file was left at. *)
Theorem finish_joins_parts_in_slot_order
        (object_ : S3Object.t) (w : state)
        (uploads : PyDict.t SparseList.t) (ids : list file_id) :
  get (Bucket.name (S3Object.bucket object_)) (_multipart_uploads w) = Some uploads ->
  get (S3Object.name object_) uploads = Some (List.map Some ids) ->
  Forall (fun i => i < List.length (files w)) ids ->
  exists w',
    finish_multipart_upload object_ w = (Ok tt, w')
    /\ stored w' (Bucket.name (S3Object.bucket object_)) (S3Object.name object_)
       = Some (join "" (List.map (fun i => buffer (file_at w i)) ids)).
Proof.
  intros U P B.
  destruct (finish_prefix object_ w uploads ids [] U) as (w' & E & S); [|exact B|].
  - now rewrite List.app_nil_r.
  - exists w'. split; [exact E | exact S].
Qed.

Lemma finish_joins_parts_in_slot_order_witness :
  exists w',
    finish_multipart_upload Scenes.cat Scenes.two_parts = (Ok tt, w')
    /\ stored w' "photos" "cat.png" = Some "hello world".
Proof.
  apply (finish_joins_parts_in_slot_order Scenes.cat Scenes.two_parts
           [("cat.png", [Some 1; Some 0])] [1; 0]).
  - reflexivity.
  - reflexivity.
  - repeat constructor.
Defined.

(** X20: finishing a multipart upload with a slot that was never written
    raises [AttributeError], and by then the object's name is already bound
    to a file holding only the parts before that slot. *)
Theorem finish_with_missing_part_truncates
        (object_ : S3Object.t) (w : state)
        (uploads : PyDict.t SparseList.t) (ids : list file_id) (rest : SparseList.t) :
  get (Bucket.name (S3Object.bucket object_)) (_multipart_uploads w) = Some uploads ->
  get (S3Object.name object_) uploads = Some (List.map Some ids ++ None :: rest)%list ->
  Forall (fun i => i < List.length (files w)) ids ->
  exists w',
    finish_multipart_upload object_ w = (Raise AttributeError, w')
    /\ stored w' (Bucket.name (S3Object.bucket object_)) (S3Object.name object_)
       = Some (join "" (List.map (fun i => buffer (file_at w i)) ids)).
Proof.
  intros U P B.
  destruct (finish_prefix object_ w uploads ids (None :: rest) U P B) as (w' & E & S).
  exists w'. split; [exact E | exact S].
Qed.

Lemma finish_with_missing_part_truncates_witness :
  exists w',
    finish_multipart_upload Scenes.cat Scenes.gap = (Raise AttributeError, w')
    /\ stored w' "photos" "cat.png" = Some "hello".
Proof.
  apply (finish_with_missing_part_truncates Scenes.cat Scenes.gap
           [("cat.png", [Some 0; None; Some 1])] [0] [Some 1]).
  - reflexivity.
  - reflexivity.
  - repeat constructor.
Defined.

(** Writing to one file leaves the dictionaries and every other file as
    they are. *)
Lemma write_all_frame (file : file_id) (chunks : list (option bytes)) (w : state) :
  let w' := write_all file chunks w in
  _multipart_uploads w' = _multipart_uploads w
  /\ _buckets w' = _buckets w
  /\ (forall j, j <> file -> file_at w' j = file_at w j).
Proof.
  revert w. induction chunks as [|c l IH]; intros w; cbn [write_all fold_left].
  - now repeat split.
  - destruct (IH (write file c w)) as (U & B & F). unfold write_all in *.
    rewrite U, B. destruct c as [c|]; cbn [write]; [|now repeat split; try apply F].
    split; [reflexivity|]. split; [reflexivity|].
    intros j N. rewrite F by exact N. cbn [write].
    now apply file_at_with_file_other.
Qed.

(** X21: uploading part number [k >= 1] of a started multipart upload
    always succeeds: the part gets a new file, slot [k - 1] of the upload
    refers to it and, after the writes, it holds exactly the bytes written;
    every other slot and every older file is as before. *)
Theorem part_upload_fills_its_slot
        (object_ : S3Object.t) (k size : Z) (chunks : list (option bytes))
        (w : state) (uploads : PyDict.t SparseList.t) (parts : SparseList.t) :
  get (Bucket.name (S3Object.bucket object_)) (_multipart_uploads w) = Some uploads ->
  get (S3Object.name object_) uploads = Some parts ->
  (1 <= k)%Z ->
  exists file w1 uploads' parts',
    write_object_multipart object_ k size w = (Ok file, w1)
    /\ let w2 := write_all file chunks w1 in
       get (Bucket.name (S3Object.bucket object_)) (_multipart_uploads w2)
       = Some uploads'
       /\ get (S3Object.name object_) uploads' = Some parts'
       /\ SparseList.getitem parts' (k - 1) = Some file
       /\ buffer (file_at w2 file) = data_of chunks
       /\ (forall j, (0 <= j)%Z -> j <> (k - 1)%Z ->
             SparseList.getitem parts' j = SparseList.getitem parts j)
       /\ (forall i, i < List.length (files w) -> file_at w2 i = file_at w i).
Proof.
  intros U P K. unfold write_object_multipart.
  pose proof (allocate_fresh w) as A.
  destruct (allocate w) as [file w1].
  destruct A as (Hid & Fnew & Len & _ & Up & Old).
  unfold access. rewrite Up, U, P.
  destruct (SparseListFacts.setitem_getitem parts (k - 1) (Some file))
    as (parts' & S & G & _); [lia|].
  rewrite S.
  set (ups := set (S3Object.name object_) parts' uploads).
  set (w1' := with_uploads (with_uploads w1 (_multipart_uploads w))
                (set (Bucket.name (S3Object.bucket object_)) ups
                     (_multipart_uploads w))).
  exists file, w1', ups, parts'. split; [reflexivity|]. cbv zeta.
  destruct (write_all_frame file chunks w1') as (Uw & _ & Fw).
  destruct (write_all_appends file chunks w1') as (Bw & _ & _).
  { cbn [w1' with_uploads files]. lia. }
  { change (file_at w1' file) with (file_at w1 file). now rewrite Fnew. }
  cbv zeta in Uw, Fw, Bw.
  split; [rewrite Uw; apply get_set_same|].
  split; [apply get_set_same|].
  split; [rewrite G by lia; now rewrite Z.eqb_refl|].
  split.
  { rewrite Bw. change (file_at w1' file) with (file_at w1 file). now rewrite Fnew. }
  split.
  - intros j Hj N. rewrite G by exact Hj.
    destruct (Z.eqb_spec j (k - 1)); [contradiction | reflexivity].
  - intros i Hi. rewrite Fw by lia.
    change (file_at w1' i) with (file_at w1 i). apply Old. lia.
Qed.

Lemma part_upload_fills_its_slot_witness :
  exists file w1 uploads' parts',
    write_object_multipart Scenes.cat 2 0 Scenes.started = (Ok file, w1)
    /\ let w2 := write_all file [Some "world"] w1 in
       get (Bucket.name (S3Object.bucket Scenes.cat)) (_multipart_uploads w2)
       = Some uploads'
       /\ get (S3Object.name Scenes.cat) uploads' = Some parts'
       /\ SparseList.getitem parts' (2 - 1) = Some file
       /\ buffer (file_at w2 file) = data_of [Some "world"]
       /\ (forall j, (0 <= j)%Z -> j <> (2 - 1)%Z ->
             SparseList.getitem parts' j = SparseList.getitem [] j)
       /\ (forall i, i < List.length (files Scenes.started) ->
             file_at w2 i = file_at Scenes.started i).
Proof.
  apply (part_upload_fills_its_slot Scenes.cat 2 0 [Some "world"] Scenes.started
           [("cat.png", [])] []).
  - reflexivity.
  - reflexivity.
  - lia.
Defined.

(** A dictionary holds each key once. *)
Lemma keys_set_nodup {V} (k : str) (v : V) (d : PyDict.t V) :
  NoDup (keys d) -> NoDup (keys (set k v d)).
Proof.
  intros N. destruct (mem k d) eqn:M.
  - now rewrite keys_set_old.
  - rewrite keys_set_new by exact M. apply NoDup_app; [exact N | repeat constructor; easy |].
    intros x Hx [E|[]]. subst x. rename k into x. unfold mem in M.
    assert (E : exists v', get x d = Some v').
    { clear -Hx. induction d as [|[k' v'] r IH]; [destruct Hx|]. cbn [get].
      destruct (String.eqb k' x) eqn:E; [now eexists|].
      apply IH. destruct Hx as [Hx|Hx]; [|exact Hx].
      cbn in Hx. subst. now rewrite String.eqb_refl in E. }
    destruct E as (v' & E). now rewrite E in M.
Qed.

Lemma get_in {V} (k : str) (v : V) (d : PyDict.t V) :
  NoDup (keys d) -> (In (k, v) d <-> get k d = Some v).
Proof.
  induction d as [|[k' v'] r IH]; intros N; cbn [get In].
  - split; [intros [] | discriminate].
  - inversion N as [|? ? Hn Hr]; subst.
    destruct (String.eqb k' k) eqn:E.
    + apply String.eqb_eq in E. subst k'. split.
      * intros [H|H]; [congruence|]. exfalso. apply Hn.
        change k with (fst (k, v)). now apply in_map.
      * intros H. left. congruence.
    + apply String.eqb_neq in E. rewrite <- (IH Hr). split.
      * intros [H|H]; [congruence | exact H].
      * intros H. now right.
Qed.

Lemma get_remove_other {V} (k k0 : str) (d : PyDict.t V) :
  k0 <> k -> get k0 (remove k d) = get k0 d.
Proof.
  intros N. induction d as [|[k' v'] r IH]; [reflexivity|]. cbn [remove get].
  destruct (String.eqb k' k) eqn:E.
  - apply String.eqb_eq in E. subst k'.
    destruct (String.eqb k k0) eqn:E0; [|reflexivity].
    apply String.eqb_eq in E0. congruence.
  - cbn [get]. now rewrite IH.
Qed.

Lemma keys_remove {V} (k : str) (d : PyDict.t V) :
  NoDup (keys d) ->
  keys (remove k d) = filter (fun k' => negb (String.eqb k' k)) (keys d).
Proof.
  induction d as [|[k' v'] r IH]; intros N; [reflexivity|].
  inversion N as [|? ? Hn Hr]; subst. cbn [remove keys List.map fst filter].
  destruct (String.eqb k' k) eqn:E; cbn [negb].
  - apply String.eqb_eq in E. subst k'. symmetry.
    clear -Hn. induction r as [|[k1 v1] r IH]; [reflexivity|].
    cbn [List.map fst filter]. destruct (String.eqb k1 k) eqn:E; cbn [negb].
    + apply String.eqb_eq in E. subst. exfalso. apply Hn. now left.
    + f_equal. apply IH. intros H. apply Hn. now right.
  - cbn [keys List.map fst]. f_equal. now apply IH.
Qed.

(** X22: [create_bucket] never fails and lists the bucket exactly where it
    belongs: a new name goes to the end of the listing, a name that exists
    leaves the listing as it was. *)
Theorem created_bucket_is_listed
        (key_id key_id' : option str) (name : str) (w : state) :
  exists w',
    create_bucket key_id name w = (Ok (Bucket.mk name), w')
    /\ list_buckets key_id' w'
       = (Ok (List.map Bucket.mk
                (if mem name (_buckets w) then keys (_buckets w)
                 else keys (_buckets w) ++ [name])%list), w')
    /\ _objects w' = _objects w.
Proof.
  unfold create_bucket. rewrite get_set_same. eexists. split; [reflexivity|].
  unfold list_buckets. cbn [with_buckets _buckets _objects]. split; [|reflexivity].
  destruct (mem name (_buckets w)) eqn:M.
  - now rewrite keys_set_old.
  - now rewrite keys_set_new.
Qed.

(** X23: [delete_bucket] drops the bucket's objects before it looks the
    bucket up: for a name that is no bucket it raises [KeyError] with the
    objects stored under that name already gone; for a bucket it takes the
    name out of the listing, keeps the others in order, and nothing is
    stored under the name afterwards. *)
Theorem delete_bucket_outcome
        (key_id key_id' : option str) (bucket : Bucket.t) (w : state) :
  NoDup (keys (_buckets w)) -> NoDup (keys (_objects w)) ->
  exists w',
    delete_bucket key_id bucket w
    = (if mem (Bucket.name bucket) (_buckets w) then Ok tt else Raise KeyError, w')
    /\ (forall object_name, stored w' (Bucket.name bucket) object_name = None)
    /\ list_buckets key_id' w'
       = (Ok (List.map Bucket.mk
                (filter (fun n => negb (String.eqb n (Bucket.name bucket)))
                        (keys (_buckets w)))), w')
    /\ (forall other object_name, other <> Bucket.name bucket ->
          stored w' other object_name = stored w other object_name).
Proof.
  intros Nb No. unfold delete_bucket. cbv zeta.
  set (name := Bucket.name bucket).
  set (w1 := if mem name (_objects w)
             then with_objects w (remove name (_objects w)) else w).
  assert (O1 : _objects w1 = remove name (_objects w)).
  { unfold w1. destruct (mem name (_objects w)) eqn:M; [reflexivity|].
    now rewrite remove_absent. }
  assert (B1 : _buckets w1 = _buckets w) by (unfold w1; now destruct (mem name _)).
  assert (F1 : files w1 = files w) by (unfold w1; now destruct (mem name _)).
  rewrite B1.
  assert (S1 : forall w', _objects w' = _objects w1 ->
               forall o, stored w' name o = None).
  { intros w' E o. unfold stored. rewrite E, O1. now rewrite get_remove_same. }
  assert (S2 : forall w', _objects w' = _objects w1 -> files w' = files w ->
               forall other o, other <> name -> stored w' other o = stored w other o).
  { intros w' E F other o N. unfold stored, file_at. rewrite E, O1, F.
    now rewrite get_remove_other. }
  destruct (mem name (_buckets w)) eqn:M.
  - eexists. split; [reflexivity|]. split; [now apply S1|]. split.
    + unfold list_buckets. cbn [with_buckets _buckets].
      now rewrite keys_remove.
    + now apply S2.
  - exists w1. split; [reflexivity|]. split; [now apply S1|]. split.
    + unfold list_buckets. rewrite B1. do 3 f_equal.
      rewrite <- keys_remove by exact Nb. now rewrite remove_absent.
    + now apply S2.
Qed.

Lemma delete_bucket_outcome_witness :
  exists w',
    delete_bucket None (Bucket.mk "photos") Scenes.stocked
    = (if mem (Bucket.name (Bucket.mk "photos")) (_buckets Scenes.stocked)
       then Ok tt else Raise KeyError, w')
    /\ (forall object_name,
          stored w' (Bucket.name (Bucket.mk "photos")) object_name = None)
    /\ list_buckets None w'
       = (Ok (List.map Bucket.mk
                (filter (fun n => negb (String.eqb n (Bucket.name (Bucket.mk "photos"))))
                        (keys (_buckets Scenes.stocked)))), w')
    /\ (forall other object_name, other <> Bucket.name (Bucket.mk "photos") ->
          stored w' other object_name = stored Scenes.stocked other object_name).
Proof.
  apply (delete_bucket_outcome None None (Bucket.mk "photos") Scenes.stocked).
  - repeat constructor; cbn; intuition discriminate.
  - repeat constructor; cbn; intuition discriminate.
Defined.

(** X24: [delete_object] raises [KeyError] for a name that holds nothing
    and otherwise removes exactly that name: nothing is stored under it
    afterwards, and every other object of the bucket keeps its content. *)
Theorem delete_object_outcome
        (key_id : option str) (object_ : S3Object.t) (w : state) :
  NoDup (keys (fst (access (Bucket.name (S3Object.bucket object_)) (_objects w)))) ->
  exists w',
    delete_object key_id object_ w
    = (match stored w (Bucket.name (S3Object.bucket object_)) (S3Object.name object_) with
       | Some _ => Ok tt
       | None => Raise KeyError
       end, w')
    /\ stored w' (Bucket.name (S3Object.bucket object_)) (S3Object.name object_) = None
    /\ (forall other, other <> S3Object.name object_ ->
          stored w' (Bucket.name (S3Object.bucket object_)) other
          = stored w (Bucket.name (S3Object.bucket object_)) other).
Proof.
  set (bucket := Bucket.name (S3Object.bucket object_)).
  set (name := S3Object.name object_). intros N.
  remember (fst (access bucket (_objects w))) as inner eqn:I. symmetry in I.
  unfold delete_object. fold bucket name.
  pose proof (access_get bucket (_objects w)) as G. rewrite I in G.
  assert (S0 : stored w bucket name
               = option_map (fun id => buffer (file_at w id)) (get name inner)).
  { unfold stored. unfold access in I, G. destruct (get bucket (_objects w)) eqn:E.
    - cbn in I. now subst.
    - cbn in I. now subst. }
  assert (So : forall other, stored w bucket other
               = option_map (fun id => buffer (file_at w id)) (get other inner)).
  { intros other. unfold stored. unfold access in I, G.
    destruct (get bucket (_objects w)) eqn:E; cbn in I; now subst. }
  destruct (access bucket (_objects w)) as [inner0 objects]. cbn [fst snd] in *.
  subst inner0. rewrite S0. unfold mem.
  destruct (get name inner) as [id|] eqn:E; cbn [option_map].
  - eexists. split; [reflexivity|]. split.
    + unfold stored. cbn [with_objects _objects].
      now rewrite get_set_same, get_remove_same.
    + intros other Ne. rewrite So. unfold stored. cbn [with_objects _objects].
      now rewrite get_set_same, get_remove_other.
  - eexists. split; [reflexivity|]. split.
    + unfold stored. cbn [with_objects _objects]. now rewrite G, E.
    + intros other Ne. rewrite So. unfold stored. cbn [with_objects _objects].
      now rewrite G.
Qed.

Lemma delete_object_outcome_witness :
  exists w',
    delete_object None Scenes.cat Scenes.stocked
    = (match stored Scenes.stocked (Bucket.name (S3Object.bucket Scenes.cat))
               (S3Object.name Scenes.cat) with
       | Some _ => Ok tt
       | None => Raise KeyError
       end, w')
    /\ stored w' (Bucket.name (S3Object.bucket Scenes.cat)) (S3Object.name Scenes.cat)
       = None
    /\ (forall other, other <> S3Object.name Scenes.cat ->
          stored w' (Bucket.name (S3Object.bucket Scenes.cat)) other
          = stored Scenes.stocked (Bucket.name (S3Object.bucket Scenes.cat)) other).
Proof.
  apply (delete_object_outcome None Scenes.cat Scenes.stocked).
  repeat constructor; cbn; intuition discriminate.
Defined.

(** X25: [list_bucket] never fails and agrees with the store: it lists an
    object under a name with a size exactly when content of that length is
    stored under the name, and no name twice. *)
Theorem list_bucket_agrees_with_store
        (key_id : option str) (bucket : Bucket.t) (w : state) :
  NoDup (keys (fst (access (Bucket.name bucket) (_objects w)))) ->
  exists l w',
    list_bucket key_id bucket w = (Ok l, w')
    /\ NoDup (List.map S3Object.name l)
    /\ (forall name size,
          In (S3Object.mk bucket name size) l
          <-> exists data, stored w (Bucket.name bucket) name = Some data
                           /\ size = Z.of_nat (String.length data)).
Proof.
  intros N.
  remember (fst (access (Bucket.name bucket) (_objects w))) as inner eqn:I.
  symmetry in I. unfold list_bucket.
  assert (So : forall other, stored w (Bucket.name bucket) other
               = option_map (fun id => buffer (file_at w id)) (get other inner)).
  { intros other. unfold stored. unfold access in I.
    destruct (get (Bucket.name bucket) (_objects w)) eqn:E; cbn in I; now subst. }
  destruct (access (Bucket.name bucket) (_objects w)) as [inner0 objects].
  cbn [fst] in I. subst inner0.
  eexists _, _. split; [reflexivity|]. split.
  { rewrite map_map. cbn [S3Object.name]. exact N. }
  intros name size. rewrite So, in_map_iff. split.
  - intros ([k id] & E & Hin). cbn [fst snd] in E. injection E as -> <-.
    apply get_in in Hin; [|exact N]. rewrite Hin. cbn [option_map].
    now eexists.
  - intros (data & E & ->). destruct (get name inner) as [id|] eqn:G; [|discriminate].
    cbn [option_map] in E. injection E as <-.
    exists (name, id). split; [reflexivity|]. now apply get_in.
Qed.

Lemma list_bucket_agrees_with_store_witness :
  exists l w',
    list_bucket None (Bucket.mk "photos") Scenes.stocked = (Ok l, w')
    /\ NoDup (List.map S3Object.name l)
    /\ (forall name size,
          In (S3Object.mk (Bucket.mk "photos") name size) l
          <-> exists data,
                stored Scenes.stocked (Bucket.name (Bucket.mk "photos")) name = Some data
                /\ size = Z.of_nat (String.length data)).
Proof.
  apply (list_bucket_agrees_with_store None (Bucket.mk "photos") Scenes.stocked).
  repeat constructor; cbn; intuition discriminate.
Defined.

End ConftestFacts.
